(** * A DFA engine and its mod-three client, embedded from the Go sources

    The development follows the two Go packages of the repository:
    - [fsm]      : the generic automaton engine ([ProcessInput], [isValidSymbol],
                   the accessors);
    - [modthree] : the fixed three-state automaton, [validateInput],
                   [stateToRemainder] and [ModThree] with its arithmetic
                   cross-check through [strconv.ParseInt].

    Go strings are byte sequences, so they are Rocq [string]s (lists of
    [ascii] bytes).  Go's [int], [int64] and [rune] are integers in [Z] with
    wrap-around written out where the code can reach it.  A function
    returning [(T, error)] returns a sum, [inl] for the value and [inr] for
    the error; [strconv]'s functions keep the pair because [ParseInt] reads
    the value [ParseUint] returns next to a range error. *)

From Stdlib Require Import ZArith String Ascii List Bool Lia.
From stdpp Require Import gmap list.

Local Open Scope string_scope.
Local Open Scope Z_scope.

(** ** Go run-time support: bytes, runes, ranging over a string *)

Module go.

Definition rune := Z.

(** Numeric value of a byte. *)
Definition ord (c : ascii) : Z := Z.of_N (N_of_ascii c).

(** The byte with a given value (conversion [byte(x)], keeping 8 bits). *)
Definition chr (x : Z) : ascii := ascii_of_N (Z.to_N (Z.land x 255)).

(** Constants of the run-time's UTF-8 support. *)
Definition runeError : rune := 65533.      (* U+FFFD *)
Definition runeSelf : Z := 128.
Definition maxRune : rune := 1114111.      (* U+10FFFF *)
Definition surrogateMin : rune := 55296.   (* 0xD800 *)
Definition surrogateMax : rune := 57343.   (* 0xDFFF *)
Definition tx : Z := 128.
Definition t2 : Z := 192.
Definition t3 : Z := 224.
Definition t4 : Z := 240.
Definition t5 : Z := 248.
Definition maskx : Z := 63.
Definition mask2 : Z := 31.
Definition mask3 : Z := 15.
Definition mask4 : Z := 7.
Definition rune1Max : rune := 127.
Definition rune2Max : rune := 2047.
Definition rune3Max : rune := 65535.
Definition locb : Z := 128.
Definition hicb : Z := 191.

(** [locb <= b && b <= hicb]: a continuation byte. *)
Definition cont (b : ascii) : bool := (locb <=? ord b) && (ord b <=? hicb).

(** [decoderune s k] of the run-time, on the suffix [s[k:]]: the rune that
    starts there and the number of bytes it takes.  Anything that is not a
    well-formed, shortest-form encoding yields [runeError] and width 1. *)
Definition decoderune (s : string) : rune * nat :=
  match s with
  | EmptyString => (runeError, 1%nat)
  | String b0 s1 =>
    let s0 := ord b0 in
    if (t2 <=? s0) && (s0 <? t3) then
      match s1 with
      | String b1 _ =>
        if cont b1 then
          let r := Z.lor (Z.shiftl (Z.land s0 mask2) 6) (Z.land (ord b1) maskx) in
          if rune1Max <? r then (r, 2%nat) else (runeError, 1%nat)
        else (runeError, 1%nat)
      | _ => (runeError, 1%nat)
      end
    else if (t3 <=? s0) && (s0 <? t4) then
      match s1 with
      | String b1 (String b2 _) =>
        if cont b1 && cont b2 then
          let r := Z.lor (Z.lor (Z.shiftl (Z.land s0 mask3) 12)
                                (Z.shiftl (Z.land (ord b1) maskx) 6))
                         (Z.land (ord b2) maskx) in
          if (rune2Max <? r) && negb ((surrogateMin <=? r) && (r <=? surrogateMax))
          then (r, 3%nat) else (runeError, 1%nat)
        else (runeError, 1%nat)
      | _ => (runeError, 1%nat)
      end
    else if (t4 <=? s0) && (s0 <? t5) then
      match s1 with
      | String b1 (String b2 (String b3 _)) =>
        if cont b1 && cont b2 && cont b3 then
          let r := Z.lor (Z.lor (Z.lor (Z.shiftl (Z.land s0 mask4) 18)
                                       (Z.shiftl (Z.land (ord b1) maskx) 12))
                                (Z.shiftl (Z.land (ord b2) maskx) 6))
                         (Z.land (ord b3) maskx) in
          if (rune3Max <? r) && (r <=? maxRune) then (r, 4%nat) else (runeError, 1%nat)
        else (runeError, 1%nat)
      | _ => (runeError, 1%nat)
      end
    else (runeError, 1%nat)
  end.

(** The rune at the head of a non-empty suffix, as the [range] loop reads
    it: a byte below [runeSelf] is the rune itself, anything else goes
    through [decoderune]. *)
Definition rune_at (c : ascii) (s : string) : rune * nat :=
  if ord c <? runeSelf then (ord c, 1%nat) else decoderune (String c s).

(** [for i, char := range input]: the pairs (byte offset, rune) the loop
    binds, in order.  [k] is the offset of the head of [s]; [skip] counts
    the bytes of [s] that belong to the rune decoded last. *)
Fixpoint range_from (k : Z) (skip : nat) (s : string) : list (Z * rune) :=
  match s with
  | EmptyString => []
  | String c s' =>
    match skip with
    | S n => range_from (k + 1) n s'
    | O =>
      let '(r, w) := rune_at c s' in
      (k, r) :: range_from (k + 1) (w - 1) s'
    end
  end.

Definition range_string (s : string) : list (Z * rune) := range_from 0 0 s.

(** [encoderune]: the UTF-8 bytes of a rune; surrogates and values out of
    range are encoded as [runeError]. *)
Definition encoderune (r : rune) : string :=
  let enc3 (r : rune) :=
    String (chr (Z.lor t3 (Z.shiftr r 12)))
      (String (chr (Z.lor tx (Z.land (Z.shiftr r 6) maskx)))
        (String (chr (Z.lor tx (Z.land r maskx))) EmptyString)) in
  let i := r mod 2 ^ 32 in
  if i <=? rune1Max then String (chr r) EmptyString
  else if i <=? rune2Max then
    String (chr (Z.lor t2 (Z.shiftr r 6)))
      (String (chr (Z.lor tx (Z.land r maskx))) EmptyString)
  else if (maxRune <? i) || ((surrogateMin <=? i) && (i <=? surrogateMax)) then
    enc3 runeError
  else if i <=? rune3Max then enc3 r
  else
    String (chr (Z.lor t4 (Z.shiftr r 18)))
      (String (chr (Z.lor tx (Z.land (Z.shiftr r 12) maskx)))
        (String (chr (Z.lor tx (Z.land (Z.shiftr r 6) maskx)))
          (String (chr (Z.lor tx (Z.land r maskx))) EmptyString))).

(** The conversion [string(r)] of a rune. *)
Definition string_of_rune (r : rune) : string := encoderune r.

(** Two's-complement reading of the low [w] bits: conversion to a signed
    integer type of width [w]. *)
Definition to_signed (w : Z) (x : Z) : Z :=
  let m := x mod 2 ^ w in
  if m <? 2 ^ (w - 1) then m else m - 2 ^ w.

Definition to_uint64 (x : Z) : Z := x mod 2 ^ 64.
Definition to_int64 (x : Z) : Z := to_signed 64 x.

(** [int] is 64 bits wide on the targets modelled here. *)
Definition to_int (x : Z) : Z := to_signed 64 x.

End go.

(** ** Package [strconv]: [ParseUint] and [ParseInt]

    The library functions [ModThree] calls, for an explicit base between 2
    and 36.  Base 0 (prefix detection and underscores) is outside this
    model: [ModThree] always passes base 2. *)

Module strconv.
Import go.

Inductive ErrKind :=
| ErrSyntax
| ErrRange
| ErrBase (base : Z)
| ErrBitSize (bitSize : Z).

Record NumError := mkNumError { Func : string; Num : string; Err : ErrKind }.

Definition syntaxError (fn str : string) : NumError := mkNumError fn str ErrSyntax.
Definition rangeError (fn str : string) : NumError := mkNumError fn str ErrRange.
Definition baseError (fn str : string) (base : Z) : NumError :=
  mkNumError fn str (ErrBase base).
Definition bitSizeError (fn str : string) (bitSize : Z) : NumError :=
  mkNumError fn str (ErrBitSize bitSize).

Definition maxUint64 : Z := 2 ^ 64 - 1.
Definition IntSize : Z := 64.

(** [lower(c)]: [c | ('x' - 'X')]. *)
Definition lower (c : Z) : Z := Z.lor c 32.

(** The switch at the head of [ParseUint]'s loop body: the value of a
    digit or letter, [None] for the [default] case. *)
Definition digit_value (c : Z) : option Z :=
  if (ord "0" <=? c) && (c <=? ord "9") then Some (c - ord "0")
  else if (ord "a" <=? lower c) && (lower c <=? ord "z")
  then Some (lower c - ord "a" + 10)
  else None.

(** The digit loop of [ParseUint]: [n] is the [uint64] accumulated so far,
    [s] the bytes still to read. *)
Fixpoint ParseUint_loop (s0 : string) (base cutoff maxVal : Z) (n : Z) (s : string)
  : Z * option NumError :=
  match s with
  | EmptyString => (n, None)
  | String ch rest =>
    match digit_value (ord ch) with
    | None => (0, Some (syntaxError "ParseUint" s0))
    | Some d =>
      if base mod 256 <=? d then (0, Some (syntaxError "ParseUint" s0))
      else if cutoff <=? n then (maxVal, Some (rangeError "ParseUint" s0))
      else
        let n := to_uint64 (n * base) in
        let n1 := to_uint64 (n + d) in
        if (n1 <? n) || (maxVal <? n1) then (maxVal, Some (rangeError "ParseUint" s0))
        else ParseUint_loop s0 base cutoff maxVal n1 rest
    end
  end.

Definition ParseUint (s : string) (base bitSize : Z) : Z * option NumError :=
  if String.eqb s "" then (0, Some (syntaxError "ParseUint" s))
  else if negb ((2 <=? base) && (base <=? 36)) then (0, Some (baseError "ParseUint" s base))
  else
    let bitSize := if bitSize =? 0 then IntSize else bitSize in
    if (bitSize <? 0) || (64 <? bitSize) then (0, Some (bitSizeError "ParseUint" s bitSize))
    else
      let cutoff := maxUint64 / base + 1 in
      let maxVal := to_uint64 (2 ^ bitSize - 1) in
      ParseUint_loop s base cutoff maxVal 0 s.

Definition ParseInt (s : string) (base bitSize : Z) : Z * option NumError :=
  match s with
  | EmptyString => (0, Some (syntaxError "ParseInt" s))
  | String c0 tl =>
    let s0 := s in
    let '(neg, s) :=
      if Ascii.eqb c0 "+" then (false, tl)
      else if Ascii.eqb c0 "-" then (true, tl)
      else (false, s) in
    let '(un, err) := ParseUint s base bitSize in
    let not_range :=
      match err with
      | Some e => match Err e with ErrRange => None | _ => Some e end
      | None => None
      end in
    match not_range with
    | Some e => (0, Some (mkNumError "ParseInt" s0 (Err e)))
    | None =>
      let bitSize := if bitSize =? 0 then IntSize else bitSize in
      let cutoff := to_uint64 (2 ^ (bitSize - 1)) in
      if negb neg && (cutoff <=? un) then
        (to_int64 (cutoff - 1), Some (rangeError "ParseInt" s0))
      else if neg && (cutoff <? un) then
        (- to_int64 cutoff, Some (rangeError "ParseInt" s0))
      else
        let n := to_int64 un in
        (if neg then to_int64 (- n) else n, None)
    end
  end.

End strconv.

(** ** Package [fmt]: what the [String] methods use of it *)

Module fmt.

(** The line feed of the format strings. *)
Definition nl : string := String "010"%char EmptyString.

(** The elements of a slice separated by single spaces. *)
Fixpoint join_space (xs : list string) : string :=
  match xs with
  | [] => EmptyString
  | [x] => x
  | x :: rest => x ++ " " ++ join_space rest
  end.

(** The verb [%v] on a slice of a string type: the elements between
    brackets, separated by spaces. *)
Definition verb_v_slice (xs : list string) : string := "[" ++ join_space xs ++ "]".

End fmt.

(** ** Package [fsm]: the automaton engine *)

Module fsm.
Import go.

Definition State := string.
Definition Symbol := string.

(** The Go type [TransitionFunction]; the record field below keeps that
    name. *)
Definition TransitionFunctionT := State -> Symbol -> State.

(** The automaton as a value: each slice field stands for the elements the
    slice holds when the automaton is used.  The slices as shared,
    writable memory are the subject of the module [shared] further down. *)
Record FiniteAutomaton := mkFiniteAutomaton {
  States : list State;
  Alphabet : list Symbol;
  InitialState : State;
  AcceptingStates : list State;
  TransitionFunction : TransitionFunctionT
}.

Definition NewFiniteAutomaton (states : list State) (alphabet : list Symbol)
    (initialState : State) (acceptingStates : list State)
    (transitionFunction : TransitionFunctionT) : FiniteAutomaton :=
  {| States := states;
     Alphabet := alphabet;
     InitialState := initialState;
     AcceptingStates := acceptingStates;
     TransitionFunction := transitionFunction |}.

(** The error [ProcessInput] builds with [fmt.Errorf]: the symbol, its
    position and the alphabet printed in the message. *)
Inductive ProcessError :=
| InvalidSymbol (symbol : Symbol) (position : Z) (alphabet : list Symbol).

(** The loop of [isValidSymbol] and of [IsAcceptingState]: first equal
    element returns [true]. *)
Fixpoint member (xs : list string) (x : string) : bool :=
  match xs with
  | [] => false
  | s :: rest => if String.eqb s x then true else member rest x
  end.

Definition isValidSymbol (fa : FiniteAutomaton) (symbol : Symbol) : bool :=
  member (Alphabet fa) symbol.

(** The body of the [range] loop of [ProcessInput], over the pairs the
    loop binds. *)
Fixpoint ProcessInput_loop (fa : FiniteAutomaton) (currentState : State)
    (rs : list (Z * rune)) : State + ProcessError :=
  match rs with
  | [] => inl currentState
  | (i, char) :: rest =>
    let symbol := string_of_rune char in
    if negb (isValidSymbol fa symbol)
    then inr (InvalidSymbol symbol i (Alphabet fa))
    else ProcessInput_loop fa (TransitionFunction fa currentState symbol) rest
  end.

Definition ProcessInput (fa : FiniteAutomaton) (input : string) : State + ProcessError :=
  ProcessInput_loop fa (InitialState fa) (range_string input).

Definition IsAcceptingState (fa : FiniteAutomaton) (state : State) : bool :=
  member (AcceptingStates fa) state.

Definition GetStates (fa : FiniteAutomaton) : list State := States fa.
Definition GetAlphabet (fa : FiniteAutomaton) : list Symbol := Alphabet fa.
Definition GetInitialState (fa : FiniteAutomaton) : State := InitialState fa.
Definition GetAcceptingStates (fa : FiniteAutomaton) : list State := AcceptingStates fa.

(** The method [String] of the automaton (the name [String] itself is the
    constructor of strings): the lines the string builder is given. *)
Definition FiniteAutomaton_String (fa : FiniteAutomaton) : string :=
  ("Finite Automaton:" ++ fmt.nl)
  ++ ("  States: " ++ fmt.verb_v_slice (States fa) ++ fmt.nl)
  ++ ("  Alphabet: " ++ fmt.verb_v_slice (Alphabet fa) ++ fmt.nl)
  ++ ("  Initial State: " ++ InitialState fa ++ fmt.nl)
  ++ ("  Accepting States: " ++ fmt.verb_v_slice (AcceptingStates fa) ++ fmt.nl).

End fsm.

(** ** Package [modthree] *)

Module modthree.
Import go.

Record ModThreeResult := mkModThreeResult {
  Input : string;
  FinalState : fsm.State;
  Remainder : Z;
  BinaryValue : Z;
  DecimalValue : Z
}.

Record ModThreeFSM := mkModThreeFSM { automaton : fsm.FiniteAutomaton }.

(** The errors [ModThree] and [validateInput] build with [fmt.Errorf], by
    what their message is made from. *)
Inductive Error :=
| EmptyInput
| InvalidDigit (char : rune) (position : Z)
| FSMProcessingError (err : fsm.ProcessError)
| ParseBinaryError (err : strconv.NumError)
| ResultMismatch (got expected : Z).

(** The closure [transitionFunction] of [NewModThreeFSM]: nested switches
    that fall out to [return currentState]. *)
Definition transitionFunction (currentState : fsm.State) (symbol : fsm.Symbol) : fsm.State :=
  if String.eqb currentState "S0" then
    if String.eqb symbol "0" then "S0"
    else if String.eqb symbol "1" then "S1"
    else currentState
  else if String.eqb currentState "S1" then
    if String.eqb symbol "0" then "S2"
    else if String.eqb symbol "1" then "S0"
    else currentState
  else if String.eqb currentState "S2" then
    if String.eqb symbol "0" then "S1"
    else if String.eqb symbol "1" then "S2"
    else currentState
  else currentState.

Definition NewModThreeFSM : ModThreeFSM :=
  let states := ["S0"; "S1"; "S2"] in
  let alphabet := ["0"; "1"] in
  let initialState := "S0" in
  let acceptingStates := ["S0"; "S1"; "S2"] in
  let automaton :=
    fsm.NewFiniteAutomaton states alphabet initialState acceptingStates
      transitionFunction in
  {| automaton := automaton |}.

(** The [range] loop of [validateInput]. *)
Fixpoint validateInput_loop (rs : list (Z * rune)) : option Error :=
  match rs with
  | [] => None
  | (i, char) :: rest =>
    if negb (char =? ord "0") && negb (char =? ord "1")
    then Some (InvalidDigit char i)
    else validateInput_loop rest
  end.

Definition validateInput (m : ModThreeFSM) (input : string) : option Error :=
  if String.eqb input "" then Some EmptyInput
  else validateInput_loop (range_string input).

Definition stateToRemainder (m : ModThreeFSM) (state : fsm.State) : Z :=
  if String.eqb state "S0" then 0
  else if String.eqb state "S1" then 1
  else if String.eqb state "S2" then 2
  else -1.

Definition ModThree (m : ModThreeFSM) (input : string) : ModThreeResult + Error :=
  match validateInput m input with
  | Some err => inr err
  | None =>
    match fsm.ProcessInput (automaton m) input with
    | inr err => inr (FSMProcessingError err)
    | inl finalState =>
      let remainder := stateToRemainder m finalState in
      match strconv.ParseInt input 2 64 with
      | (_, Some err) => inr (ParseBinaryError err)
      | (binaryValue, None) =>
        let expectedRemainder := to_int (Z.rem binaryValue 3) in
        if negb (remainder =? expectedRemainder)
        then inr (ResultMismatch remainder expectedRemainder)
        else inl {| Input := input;
                    FinalState := finalState;
                    Remainder := remainder;
                    BinaryValue := to_int binaryValue;
                    DecimalValue := to_int binaryValue |}
      end
    end
  end.

Definition GetAutomaton (m : ModThreeFSM) : fsm.FiniteAutomaton := automaton m.

(** The method [String] of [ModThreeFSM]. *)
Definition ModThreeFSM_String (m : ModThreeFSM) : string :=
  ("ModThree FSM:" ++ fmt.nl) ++ fsm.FiniteAutomaton_String (automaton m).

End modthree.

(** ** The helper [contains] of the two test files *)

Module fsm_test.

(** What evaluating [contains] ends in: a boolean, or a run-time panic of
    a slice expression; [NoFuel] is the model's own, for a recursion cut
    short. *)
Inductive outcome :=
| Done (b : bool)
| Panicked
| NoFuel.

(** The slice expression [s[lo:hi]], which panics unless
    [lo <= hi <= len(s)].  Lengths are natural numbers: the differences
    the code takes are taken only where they are not negative. *)
Definition str_slice (s : string) (lo hi : nat) : option string :=
  if (lo <=? hi)%nat && (hi <=? String.length s)%nat
  then Some (string_of_list_ascii (take (hi - lo) (drop lo (list_ascii_of_string s))))
  else None.

(** [contains], its operands evaluated left to right with the short
    circuits of [&&] and [||]; [fuel] bounds the depth of the recursion. *)
Fixpoint contains_fuel (fuel : nat) (s substr : string) : outcome :=
  if negb (String.length substr <=? String.length s)%nat then Done false
  else if String.eqb s substr then Done true
  else if negb (String.length substr <? String.length s)%nat then Done false
  else
    match str_slice s 0 (String.length substr) with
    | None => Panicked
    | Some p =>
      if String.eqb p substr then Done true
      else
        match str_slice s (String.length s - String.length substr) (String.length s) with
        | None => Panicked
        | Some q =>
          if String.eqb q substr then Done true
          else
            match str_slice s 1 (String.length s - 1) with
            | None => Panicked
            | Some mid =>
              match fuel with
              | O => NoFuel
              | S n => contains_fuel n mid substr
              end
            end
        end
    end.

(** Each call drops two bytes, so the length of [s] is fuel enough. *)
Definition contains (s substr : string) : outcome :=
  contains_fuel (String.length s) s substr.

End fsm_test.

(** ** Slices as shared memory

    A Go slice is a reference to a backing array: copying the slice value
    (passing it to [NewFiniteAutomaton], returning it from an accessor)
    copies the reference, not the elements.  This module keeps that: the
    arrays live in a store, a slice names one of them, and the engine's
    operations are store-passing computations.  A computation that indexes
    out of range panics ([None]). *)

Module shared.
Import go.

Abbreviation loc := positive.
Abbreviation store := (gmap positive (list string)).

Record Slice := mkSlice { array : loc; len : nat }.

Definition M (A : Type) : Type := store -> option (A * store).

Definition ret {A} (a : A) : M A := fun h => Some (a, h).

Definition bind {A B} (c : M A) (k : A -> M B) : M B :=
  fun h => match c h with
           | Some (a, h') => k a h'
           | None => None
           end.

Notation "'do' x <- c ; k" := (bind c (fun x => k))
  (at level 10, x name, c at level 100, k at level 200).

(** A composite literal [[]T{x1, ..., xn}]: a new array and the slice over
    all of it. *)
Definition make_slice (xs : list string) : M Slice :=
  fun h =>
    let l := fresh (dom h) in
    Some ({| array := l; len := length xs |}, <[l := xs]> h).

(** The elements a [range] over the slice reads. *)
Definition slice_elems (sl : Slice) : M (list string) :=
  fun h => match h !! array sl with
           | Some xs => Some (take (len sl) xs, h)
           | None => None
           end.

(** The assignment [sl[i] = v]. *)
Definition slice_store (sl : Slice) (i : nat) (v : string) : M unit :=
  fun h => match h !! array sl with
           | Some xs =>
             if (i <? len sl)%nat then Some (tt, <[array sl := <[i := v]> xs]> h)
             else None
           | None => None
           end.

(** The struct of package [fsm] with its slice fields as references. *)
Record FiniteAutomaton := mkFiniteAutomaton {
  States : Slice;
  Alphabet : Slice;
  InitialState : fsm.State;
  AcceptingStates : Slice;
  TransitionFunction : fsm.TransitionFunctionT
}.

(** The constructor stores the slices it is given. *)
Definition NewFiniteAutomaton (states alphabet : Slice) (initialState : fsm.State)
    (acceptingStates : Slice) (transitionFunction : fsm.TransitionFunctionT)
  : M FiniteAutomaton :=
  ret {| States := states;
         Alphabet := alphabet;
         InitialState := initialState;
         AcceptingStates := acceptingStates;
         TransitionFunction := transitionFunction |}.

(** The accessors return the stored slices. *)
Definition GetStates (fa : FiniteAutomaton) : M Slice := ret (States fa).
Definition GetAlphabet (fa : FiniteAutomaton) : M Slice := ret (Alphabet fa).
Definition GetInitialState (fa : FiniteAutomaton) : M fsm.State := ret (InitialState fa).
Definition GetAcceptingStates (fa : FiniteAutomaton) : M Slice :=
  ret (AcceptingStates fa).

Definition isValidSymbol (fa : FiniteAutomaton) (symbol : fsm.Symbol) : M bool :=
  do alphabet <- slice_elems (Alphabet fa);
  ret (fsm.member alphabet symbol).

Fixpoint ProcessInput_loop (fa : FiniteAutomaton) (currentState : fsm.State)
    (rs : list (Z * rune)) : M (fsm.State + fsm.ProcessError) :=
  match rs with
  | [] => ret (inl currentState)
  | (i, char) :: rest =>
    let symbol := string_of_rune char in
    do valid <- isValidSymbol fa symbol;
    if negb valid then
      do alphabet <- slice_elems (Alphabet fa);
      ret (inr (fsm.InvalidSymbol symbol i alphabet))
    else ProcessInput_loop fa (TransitionFunction fa currentState symbol) rest
  end.

Definition ProcessInput (fa : FiniteAutomaton) (input : string)
  : M (fsm.State + fsm.ProcessError) :=
  ProcessInput_loop fa (InitialState fa) (range_string input).

(** The automaton a store holds behind the references: the value the
    operations of module [fsm] work on. *)
Definition snapshot (fa : FiniteAutomaton) : M fsm.FiniteAutomaton :=
  do states <- slice_elems (States fa);
  do alphabet <- slice_elems (Alphabet fa);
  do accepting <- slice_elems (AcceptingStates fa);
  ret (fsm.mkFiniteAutomaton states alphabet (InitialState fa) accepting
         (TransitionFunction fa)).

(** A caller that builds the mod-three automaton as [NewModThreeFSM] does,
    runs it on ["0"], assigns to element 0 of the slices [GetAlphabet] and
    [GetStates] return, and runs it on ["0"] again.  It returns both
    results and the automaton the store holds before and after the
    assignments. *)
Definition client
  : M ((fsm.State + fsm.ProcessError) * (fsm.State + fsm.ProcessError)
       * fsm.FiniteAutomaton * fsm.FiniteAutomaton) :=
  do states <- make_slice ["S0"; "S1"; "S2"];
  do alphabet <- make_slice ["0"; "1"];
  do acceptingStates <- make_slice ["S0"; "S1"; "S2"];
  do fa <- NewFiniteAutomaton states alphabet "S0" acceptingStates
             modthree.transitionFunction;
  do before <- ProcessInput fa "0";
  do definition0 <- snapshot fa;
  do view <- GetAlphabet fa;
  do _ <- slice_store view 0 "x";
  do view' <- GetStates fa;
  do _ <- slice_store view' 2 "S9";
  do after <- ProcessInput fa "0";
  do definition1 <- snapshot fa;
  ret (before, after, definition0, definition1).

End shared.

(** ** The reading of the specification

    Definitions that follow the specification's words, to compare the code
    with. *)

Module spec.
Import go.

(** A string "consisting only of characters '0' and '1'". *)
Fixpoint is_binary (s : string) : bool :=
  match s with
  | EmptyString => true
  | String c rest => (Ascii.eqb c "0" || Ascii.eqb c "1") && is_binary rest
  end.

(** "The string parsed as a base-2 integer", most significant digit
    first, continuing from the value [acc] of the digits already read. *)
Fixpoint parseBinary_from (acc : Z) (s : string) : Z :=
  match s with
  | EmptyString => acc
  | String c rest => parseBinary_from (2 * acc + (ord c - ord "0")) rest
  end.

Definition parseBinary (s : string) : Z := parseBinary_from 0 s.

(** The state that stands for a remainder. *)
Definition state_of_remainder (r : Z) : fsm.State :=
  if r =? 0 then "S0" else if r =? 1 then "S1" else "S2".

(** The three states of the mod-three automaton. *)
Definition is_mod3_state (st : fsm.State) : Prop :=
  st = "S0" \/ st = "S1" \/ st = "S2".

(** A rune other than '0' and '1'. *)
Definition offending (r : rune) : Prop := r <> ord "0" /\ r <> ord "1".

(** "An input string containing a character other than '0' or '1'": one
    of the characters a left-to-right scan meets is offending. *)
Definition contains_offending (input : string) : Prop :=
  exists p : Z * rune, p ∈ range_string input /\ offending (snd p).

(** "ComputeModThree(s).remainder": the remainder field when there is a
    result. *)
Definition remainder_of (res : modthree.ModThreeResult + modthree.Error) : option Z :=
  match res with
  | inl r => Some (modthree.Remainder r)
  | inr _ => None
  end.

(** [substr] occurs in [s] as a run of consecutive bytes. *)
Definition occurs_in (substr s : string) : Prop :=
  exists pre post : string, s = (pre ++ substr ++ post)%string.

(** A string of bytes below [runeSelf] only. *)
Fixpoint is_ascii (s : string) : bool :=
  match s with
  | EmptyString => true
  | String c rest => (ord c <? runeSelf) && is_ascii rest
  end.

(** The symbol [ProcessInput] makes of a pair of the [range] loop is in
    the automaton's alphabet. *)
Definition symbol_ok (fa : fsm.FiniteAutomaton) (p : Z * rune) : Prop :=
  fsm.isValidSymbol fa (string_of_rune (snd p)) = true.

(** The transition function iterated over the symbols of the input, from
    the state [q]. *)
Definition delta_star (fa : fsm.FiniteAutomaton) (q : fsm.State) (rs : list (Z * rune))
  : fsm.State :=
  fold_left (fun st p => fsm.TransitionFunction fa st (string_of_rune (snd p))) rs q.

(** Processing resumed in state [q] on the bytes [s] found at offset [k]
    of a longer input. *)
Definition resume (fa : fsm.FiniteAutomaton) (q : fsm.State) (k : Z) (s : string)
  : fsm.State + fsm.ProcessError :=
  fsm.ProcessInput_loop fa q (range_from k 0 s).

End spec.

(** * Properties *)

(** ** Bytes, runes and ranging *)

Section RangeFacts.
Import go spec.

Lemma ord_range (c : ascii) : 0 <= ord c < 256.
Proof.
  unfold ord. pose proof (N_ascii_bounded c) as Hb. lia.
Qed.

Lemma ord_inj (c d : ascii) : ord c = ord d -> c = d.
Proof.
  unfold ord. intros H. apply N2Z.inj in H.
  rewrite <- (ascii_N_embedding c), <- (ascii_N_embedding d). now f_equal.
Qed.

Lemma rune_at_self (c : ascii) (s : string) :
  ord c < runeSelf -> rune_at c s = (ord c, 1%nat).
Proof.
  intros H. unfold rune_at. destruct (Z.ltb_spec (ord c) runeSelf); [reflexivity | lia].
Qed.

(** What [decoderune] returns is never an ASCII rune: each branch checks
    its result against the largest rune of the shorter form. *)
Lemma decoderune_not_self (s : string) : rune1Max < fst (decoderune s).
Proof.
  unfold decoderune.
  repeat match goal with
         | |- context [match ?x with _ => _ end] =>
           match type of x with
           | string => destruct x
           | bool => destruct x eqn:?
           end
         end; cbn [fst]; try (unfold runeError, rune1Max; lia).
  all: unfold rune1Max, rune2Max, rune3Max in *;
    repeat match goal with
           | H : (_ && _)%bool = true |- _ => apply andb_true_iff in H; destruct H
           | H : (_ <? _) = true |- _ => apply Z.ltb_lt in H
           end; lia.
Qed.

Lemma rune_at_offending (c : ascii) (s : string) :
  Ascii.eqb c "0" = false -> Ascii.eqb c "1" = false ->
  offending (fst (rune_at c s)).
Proof.
  intros H0 H1. unfold rune_at, offending.
  destruct (Z.ltb_spec (ord c) runeSelf) as [Hlt | Hge]; cbn [fst].
  - split; intros E; apply ord_inj in E; subst c; discriminate.
  - pose proof (decoderune_not_self (String c s)) as Hd.
    unfold rune1Max in Hd. change (ord "0") with 48. change (ord "1") with 49. lia.
Qed.

Lemma binary_byte (c : ascii) :
  (Ascii.eqb c "0" || Ascii.eqb c "1")%bool = true ->
  (c = "0"%char /\ ord c = 48) \/ (c = "1"%char /\ ord c = 49).
Proof.
  intros H. apply orb_true_iff in H.
  destruct H as [H | H]; apply Ascii.eqb_eq in H; subst c; [left | right]; split; reflexivity.
Qed.

(** Over a string of binary digits the loop binds one pair per byte. *)
Lemma range_from_binary_cons (k : Z) (c : ascii) (s : string) :
  (Ascii.eqb c "0" || Ascii.eqb c "1")%bool = true ->
  range_from k 0 (String c s) = (k, ord c) :: range_from (k + 1) 0 s.
Proof.
  intros H. cbn [range_from]. rewrite rune_at_self; [reflexivity |].
  destruct (binary_byte c H) as [[_ E] | [_ E]]; rewrite E; unfold runeSelf; lia.
Qed.

End RangeFacts.

(** ** Validation *)

Section ValidateFacts.
Import go spec modthree.

Lemma digit_test_binary (c : ascii) :
  (Ascii.eqb c "0" || Ascii.eqb c "1")%bool = true ->
  (negb (ord c =? ord "0") && negb (ord c =? ord "1"))%bool = false.
Proof.
  intros H. destruct (binary_byte c H) as [[-> _] | [-> _]]; reflexivity.
Qed.

Lemma digit_test_offending (r : rune) :
  offending r -> (negb (r =? ord "0") && negb (r =? ord "1"))%bool = true.
Proof.
  intros [H0 H1]. apply Z.eqb_neq in H0, H1. now rewrite H0, H1.
Qed.

Lemma not_offending_binary (c : ascii) :
  (Ascii.eqb c "0" || Ascii.eqb c "1")%bool = true -> ~ offending (ord c).
Proof.
  intros H [H0 H1]. destruct (binary_byte c H) as [[-> _] | [-> _]]; congruence.
Qed.

(** The loop of [validateInput] accepts exactly the strings of binary
    digits. *)
Lemma validateInput_loop_binary (s : string) (k : Z) :
  validateInput_loop (range_from k 0 s) = None <-> is_binary s = true.
Proof.
  revert k. induction s as [| c s IH]; intros k; [easy |].
  cbn [is_binary]. destruct (Ascii.eqb c "0" || Ascii.eqb c "1")%bool eqn:E.
  - rewrite range_from_binary_cons by exact E. cbn [validateInput_loop].
    rewrite digit_test_binary by exact E. rewrite andb_true_l. apply IH.
  - apply orb_false_iff in E. destruct E as [E0 E1].
    pose proof (rune_at_offending c s E0 E1) as Hoff.
    cbn [range_from]. destruct (rune_at c s) as [r w]. cbn [fst] in Hoff.
    cbn [validateInput_loop]. rewrite digit_test_offending by exact Hoff.
    rewrite andb_false_l. split; discriminate.
Qed.

Lemma validateInput_None (m : ModThreeFSM) (s : string) :
  validateInput m s = None <-> s <> "" /\ is_binary s = true.
Proof.
  unfold validateInput. destruct (String.eqb_spec s "") as [-> | Hne].
  - split; [discriminate | intros [H _]; congruence].
  - unfold range_string. rewrite validateInput_loop_binary. tauto.
Qed.

(** The first pair of the loop whose rune is not a binary digit is the one
    [validateInput]'s loop reports; every pair before it is a binary digit
    sitting at its own index. *)
Lemma validateInput_loop_first (s : string) (k : Z) :
  (exists p, p ∈ range_from k 0 s /\ offending (snd p)) ->
  exists (n : nat) (r : rune),
    range_from k 0 s !! n = Some (k + Z.of_nat n, r) /\
    offending r /\
    (forall j : nat, (j < n)%nat ->
       exists r', range_from k 0 s !! j = Some (k + Z.of_nat j, r') /\ ~ offending r') /\
    validateInput_loop (range_from k 0 s) = Some (InvalidDigit r (k + Z.of_nat n)).
Proof.
  revert k. induction s as [| c s IH]; intros k [p [Hin Hoff]].
  - cbn in Hin. apply elem_of_nil in Hin. destruct Hin.
  - destruct (Ascii.eqb c "0" || Ascii.eqb c "1")%bool eqn:E.
    + rewrite range_from_binary_cons in * by exact E.
      apply elem_of_cons in Hin. destruct Hin as [-> | Hin].
      { exfalso. exact (not_offending_binary c E Hoff). }
      destruct (IH (k + 1) (ex_intro _ p (conj Hin Hoff))) as (n & r & Hn & Hr & Hbefore & Hv).
      exists (S n), r. split; [| split; [exact Hr | split]].
      * replace (k + Z.of_nat (S n)) with (k + 1 + Z.of_nat n) by lia. exact Hn.
      * intros [| j] Hj.
        -- exists (ord c). split; [cbn; do 2 f_equal; lia | exact (not_offending_binary c E)].
        -- destruct (Hbefore j ltac:(lia)) as (r' & Hj' & Hr').
           exists r'. split; [| exact Hr'].
           replace (k + Z.of_nat (S j)) with (k + 1 + Z.of_nat j) by lia. exact Hj'.
      * cbn [validateInput_loop]. rewrite digit_test_binary by exact E.
        rewrite Hv. do 2 f_equal. lia.
    + apply orb_false_iff in E. destruct E as [E0 E1].
      pose proof (rune_at_offending c s E0 E1) as Hoff'.
      cbn [range_from]. destruct (rune_at c s) as [r w]. cbn [fst] in Hoff'.
      exists 0%nat, r. split; [| split; [exact Hoff' | split]].
      * cbn. do 2 f_equal. lia.
      * intros j Hj. lia.
      * cbn [validateInput_loop]. rewrite digit_test_offending by exact Hoff'.
        do 2 f_equal. cbn. lia.
Qed.

End ValidateFacts.

(** ** The mod-three automaton on binary digits *)

Section AutomatonFacts.
Import go spec modthree.

Lemma state_of_remainder_mod3 (r : Z) : is_mod3_state (state_of_remainder r).
Proof.
  unfold is_mod3_state, state_of_remainder.
  destruct (r =? 0); [tauto |]. destruct (r =? 1); tauto.
Qed.

Lemma mod3_cases (a : Z) : a mod 3 = 0 \/ a mod 3 = 1 \/ a mod 3 = 2.
Proof. pose proof (Z.mod_pos_bound a 3). lia. Qed.

Lemma double_mod3 (a d : Z) : (2 * a + d) mod 3 = (2 * (a mod 3) + d) mod 3.
Proof.
  rewrite (Z.div_mod a 3) at 1 by lia.
  replace (2 * (3 * (a / 3) + a mod 3) + d)
    with (2 * (a mod 3) + d + (2 * (a / 3)) * 3) by lia.
  apply Z_mod_plus_full.
Qed.

(** One transition doubles the value read so far and adds the digit. *)
Lemma transition_digit (a : Z) (c : ascii) :
  (Ascii.eqb c "0" || Ascii.eqb c "1")%bool = true ->
  transitionFunction (state_of_remainder (a mod 3)) (string_of_rune (ord c))
  = state_of_remainder ((2 * a + (ord c - ord "0")) mod 3).
Proof.
  intros H. rewrite double_mod3.
  destruct (binary_byte c H) as [[-> _] | [-> _]];
    destruct (mod3_cases a) as [-> | [-> | ->]]; reflexivity.
Qed.

Lemma symbol_valid_digit (c : ascii) :
  (Ascii.eqb c "0" || Ascii.eqb c "1")%bool = true ->
  fsm.isValidSymbol (automaton NewModThreeFSM) (string_of_rune (ord c)) = true.
Proof.
  intros H. destruct (binary_byte c H) as [[-> _] | [-> _]]; reflexivity.
Qed.

(** Run from the state of [a mod 3], the engine's loop ends in the state
    of the whole value's remainder. *)
Lemma ProcessInput_loop_binary (s : string) (k a : Z) :
  is_binary s = true ->
  fsm.ProcessInput_loop (automaton NewModThreeFSM)
    (state_of_remainder (a mod 3)) (range_from k 0 s)
  = inl (state_of_remainder (parseBinary_from a s mod 3)).
Proof.
  revert k a. induction s as [| c s IH]; intros k a Hb; [reflexivity |].
  cbn [is_binary] in Hb. apply andb_true_iff in Hb. destruct Hb as [Hc Hs].
  rewrite range_from_binary_cons by exact Hc.
  cbn [fsm.ProcessInput_loop]. rewrite symbol_valid_digit by exact Hc.
  cbn [negb]. cbn [parseBinary_from].
  change (fsm.TransitionFunction (automaton NewModThreeFSM)) with transitionFunction.
  rewrite transition_digit by exact Hc. apply IH. exact Hs.
Qed.

Lemma ProcessInput_binary (s : string) :
  is_binary s = true ->
  fsm.ProcessInput (automaton NewModThreeFSM) s
  = inl (state_of_remainder (parseBinary s mod 3)).
Proof.
  intros H. unfold fsm.ProcessInput, parseBinary, range_string.
  apply (ProcessInput_loop_binary s 0 0 H).
Qed.

Lemma stateToRemainder_state_of (m : ModThreeFSM) (v : Z) :
  stateToRemainder m (state_of_remainder (v mod 3)) = v mod 3.
Proof.
  destruct (mod3_cases v) as [-> | [-> | ->]]; reflexivity.
Qed.

End AutomatonFacts.

(** ** [strconv.ParseInt] on binary digits *)

Section ParseFacts.
Import go spec strconv.

Lemma digit_value_binary (c : ascii) :
  (Ascii.eqb c "0" || Ascii.eqb c "1")%bool = true ->
  digit_value (ord c) = Some (ord c - ord "0") /\ 0 <= ord c - ord "0" <= 1.
Proof.
  intros H. destruct (binary_byte c H) as [[-> _] | [-> _]]; split; try reflexivity;
    vm_compute; split; discriminate.
Qed.

Lemma pow2_succ (n : nat) : 2 ^ Z.of_nat (S n) = 2 * 2 ^ Z.of_nat n.
Proof. rewrite Nat2Z.inj_succ. apply Z.pow_succ_r. lia. Qed.

(** Reading more digits never makes the value smaller: the value read so
    far is shifted left by one place per digit. *)
Lemma parseBinary_from_ge (s : string) (a : Z) :
  is_binary s = true -> 0 <= a ->
  a * 2 ^ Z.of_nat (String.length s) <= parseBinary_from a s.
Proof.
  revert a. induction s as [| c s IH]; intros a Hb Ha.
  - cbn. lia.
  - cbn [is_binary] in Hb. apply andb_true_iff in Hb. destruct Hb as [Hc Hs].
    destruct (digit_value_binary c Hc) as [_ Hd].
    cbn [String.length parseBinary_from]. rewrite pow2_succ.
    specialize (IH (2 * a + (ord c - ord "0")) Hs ltac:(lia)).
    assert (0 < 2 ^ Z.of_nat (String.length s)) by (apply Z.pow_pos_nonneg; lia).
    nia.
Qed.

Lemma parseBinary_from_mono (s : string) (a : Z) :
  is_binary s = true -> 0 <= a -> a <= parseBinary_from a s.
Proof.
  intros Hb Ha. pose proof (parseBinary_from_ge s a Hb Ha).
  assert (0 < 2 ^ Z.of_nat (String.length s)) by (apply Z.pow_pos_nonneg; lia).
  nia.
Qed.

Lemma cutoff_base2 : maxUint64 / 2 + 1 = 2 ^ 63.
Proof. reflexivity. Qed.

Lemma maxVal_64 : to_uint64 (2 ^ 64 - 1) = 2 ^ 64 - 1.
Proof. reflexivity. Qed.

(** The digit loop in base 2 with 64 bits returns the value when it is
    below [2 ^ 64] and a range error with the largest [uint64] otherwise. *)
Lemma ParseUint_loop_binary (s0 s : string) (n : Z) :
  is_binary s = true -> 0 <= n < 2 ^ 64 ->
  ParseUint_loop s0 2 (2 ^ 63) (2 ^ 64 - 1) n s
  = if parseBinary_from n s <? 2 ^ 64
    then (parseBinary_from n s, None)
    else (2 ^ 64 - 1, Some (rangeError "ParseUint" s0)).
Proof.
  revert n. induction s as [| c s IH]; intros n Hb Hn.
  - cbn [ParseUint_loop parseBinary_from].
    destruct (Z.ltb_spec n (2 ^ 64)); [reflexivity | lia].
  - cbn [is_binary] in Hb. apply andb_true_iff in Hb. destruct Hb as [Hc Hs].
    destruct (digit_value_binary c Hc) as [Hdv Hd].
    cbn [ParseUint_loop parseBinary_from]. rewrite Hdv.
    set (d := ord c - ord "0") in *.
    change (2 mod 256) with 2.
    destruct (Z.leb_spec 2 d) as [? | _]; [lia |].
    destruct (Z.leb_spec (2 ^ 63) n) as [Hge | Hlt].
    + pose proof (parseBinary_from_mono s (2 * n + d) Hs ltac:(lia)) as Hm.
      destruct (Z.ltb_spec (parseBinary_from (2 * n + d) s) (2 ^ 64)); [lia | reflexivity].
    + unfold to_uint64.
      rewrite (Z.mod_small (n * 2)) by lia.
      rewrite (Z.mod_small (n * 2 + d)) by lia.
      destruct (Z.ltb_spec (n * 2 + d) (n * 2)) as [? | _]; [lia |].
      destruct (Z.ltb_spec (2 ^ 64 - 1) (n * 2 + d)) as [? | _]; [lia |].
      cbn [orb]. replace (n * 2 + d) with (2 * n + d) by lia.
      apply IH; [exact Hs | lia].
Qed.

Lemma parseBinary_nonneg (s : string) : is_binary s = true -> 0 <= parseBinary s.
Proof. intros H. apply (parseBinary_from_mono s 0 H). lia. Qed.

Lemma to_int64_small (v : Z) : 0 <= v < 2 ^ 63 -> to_int64 v = v.
Proof.
  intros H. unfold to_int64, to_signed. rewrite Z.mod_small by lia.
  change (64 - 1) with 63. destruct (Z.ltb_spec v (2 ^ 63)); [reflexivity | lia].
Qed.

Lemma ParseUint_binary (s : string) :
  s <> "" -> is_binary s = true ->
  ParseUint s 2 64
  = if parseBinary s <? 2 ^ 64
    then (parseBinary s, None)
    else (2 ^ 64 - 1, Some (rangeError "ParseUint" s)).
Proof.
  intros Hne Hb. unfold ParseUint.
  destruct (String.eqb_spec s "") as [? | _]; [congruence |].
  cbv zeta.
  change (negb ((2 <=? 2) && (2 <=? 36))) with false.
  change (if 64 =? 0 then IntSize else 64) with 64.
  change ((64 <? 0) || (64 <? 64))%bool with false.
  cbv iota. rewrite cutoff_base2, maxVal_64.
  apply ParseUint_loop_binary; [exact Hb | lia].
Qed.

(** [ParseInt] in base 2 with 64 bits, on a non-empty string of binary
    digits: the value when it is below [2 ^ 63], a range error otherwise. *)
Lemma ParseInt_binary (s : string) :
  s <> "" -> is_binary s = true ->
  ParseInt s 2 64
  = if parseBinary s <? 2 ^ 63
    then (parseBinary s, None)
    else (2 ^ 63 - 1, Some (rangeError "ParseInt" s)).
Proof.
  intros Hne Hb. pose proof (parseBinary_nonneg s Hb) as Hpos.
  pose proof (ParseUint_binary s Hne Hb) as HU.
  destruct s as [| c tl]; [congruence |].
  pose proof Hb as Hb'. cbn [is_binary] in Hb'. apply andb_true_iff in Hb'.
  destruct Hb' as [Hc _].
  assert (Hsign : Ascii.eqb c "+" = false /\ Ascii.eqb c "-" = false).
  { destruct (binary_byte c Hc) as [[-> _] | [-> _]]; split; reflexivity. }
  destruct Hsign as [Hplus Hminus].
  unfold ParseInt. rewrite Hplus, Hminus. rewrite HU.
  set (v := parseBinary (String c tl)) in *.
  change (if 64 =? 0 then IntSize else 64) with 64.
  change (to_uint64 (2 ^ (64 - 1))) with (2 ^ 63).
  destruct (Z.ltb_spec v (2 ^ 64)) as [H64 | H64].
  - cbv iota beta. cbn [negb andb].
    destruct (Z.leb_spec (2 ^ 63) v) as [Hge | Hlt];
      destruct (Z.ltb_spec v (2 ^ 63)); try lia.
    + reflexivity.
    + rewrite to_int64_small by lia. reflexivity.
  - cbv iota beta. cbn [Err rangeError negb andb].
    destruct (Z.ltb_spec v (2 ^ 63)); [lia |].
    destruct (Z.leb_spec (2 ^ 63) (2 ^ 64 - 1)) as [_ | ?]; [reflexivity | lia].
Qed.

End ParseFacts.

(** ** [ModThree] on binary digits *)

Section ModThreeFacts.
Import go spec strconv modthree.

Lemma to_int_small (v : Z) : 0 <= v < 2 ^ 63 -> to_int v = v.
Proof. exact (to_int64_small v). Qed.

(** What [ModThree] returns on every non-empty string of binary digits. *)
Lemma ModThree_binary (s : string) :
  s <> "" -> is_binary s = true ->
  ModThree NewModThreeFSM s
  = if parseBinary s <? 2 ^ 63
    then inl {| Input := s;
                FinalState := state_of_remainder (parseBinary s mod 3);
                Remainder := parseBinary s mod 3;
                BinaryValue := parseBinary s;
                DecimalValue := parseBinary s |}
    else inr (ParseBinaryError (rangeError "ParseInt" s)).
Proof.
  intros Hne Hb. pose proof (parseBinary_nonneg s Hb) as Hpos.
  unfold ModThree.
  rewrite (proj2 (validateInput_None NewModThreeFSM s) (conj Hne Hb)).
  rewrite (ProcessInput_binary s Hb), (ParseInt_binary s Hne Hb).
  rewrite stateToRemainder_state_of.
  destruct (Z.ltb_spec (parseBinary s) (2 ^ 63)) as [Hlt | Hge]; [| reflexivity].
  rewrite Z.rem_mod_nonneg by lia.
  pose proof (Z.mod_pos_bound (parseBinary s) 3 ltac:(lia)) as Hm.
  rewrite !to_int_small by lia. rewrite Z.eqb_refl. reflexivity.
Qed.

(** The cross-check never fails, whatever the input. *)
Lemma ModThree_never_mismatch (s : string) (got expected : Z) :
  ModThree NewModThreeFSM s <> inr (ResultMismatch got expected).
Proof.
  destruct (validateInput NewModThreeFSM s) as [e |] eqn:Hv.
  - unfold ModThree. rewrite Hv. intros H. injection H as ->.
    unfold validateInput in Hv. destruct (String.eqb s ""); [discriminate |].
    clear -Hv. revert Hv. generalize (range_string s) as rs.
    induction rs as [| [i c] rs IH]; cbn [validateInput_loop]; [discriminate |].
    destruct (negb (c =? ord "0") && negb (c =? ord "1"))%bool; [discriminate | exact IH].
  - apply validateInput_None in Hv. destruct Hv as [Hne Hb].
    rewrite (ModThree_binary s Hne Hb).
    destruct (parseBinary s <? 2 ^ 63); discriminate.
Qed.

End ModThreeFacts.

(** ** The engine over shared slices *)

Section SharedFacts.
Import go shared.

Lemma slice_elems_frame (sl : Slice) (h h' : store) (xs : list string) :
  slice_elems sl h = Some (xs, h') -> h' = h.
Proof.
  unfold slice_elems. destruct (h !! array sl); [| discriminate].
  intros H. now injection H.
Qed.

(** Reading the automaton behind the references leaves the store as it
    is, and the value read has the alphabet the engine reads. *)
Lemma snapshot_inv (fa : FiniteAutomaton) (h h' : store) (a : fsm.FiniteAutomaton) :
  snapshot fa h = Some (a, h') ->
  h' = h /\
  slice_elems (Alphabet fa) h = Some (fsm.Alphabet a, h) /\
  fsm.InitialState a = InitialState fa /\
  fsm.TransitionFunction a = TransitionFunction fa.
Proof.
  unfold snapshot, bind, ret.
  destruct (slice_elems (States fa) h) as [[states h1] |] eqn:E1; [| discriminate].
  apply slice_elems_frame in E1 as ->.
  destruct (slice_elems (Alphabet fa) h) as [[alphabet h2] |] eqn:E2; [| discriminate].
  pose proof (slice_elems_frame _ _ _ _ E2) as ->.
  destruct (slice_elems (AcceptingStates fa) h) as [[accepting h3] |] eqn:E3; [| discriminate].
  apply slice_elems_frame in E3 as ->.
  intros H. injection H as <- <-. cbn. auto.
Qed.

Lemma ProcessInput_loop_frame (fa : FiniteAutomaton) (a : fsm.FiniteAutomaton)
    (h : store) (rs : list (Z * rune)) (cur : fsm.State) :
  slice_elems (Alphabet fa) h = Some (fsm.Alphabet a, h) ->
  fsm.TransitionFunction a = TransitionFunction fa ->
  ProcessInput_loop fa cur rs h = Some (fsm.ProcessInput_loop a cur rs, h).
Proof.
  intros Halpha Htf. revert cur. induction rs as [| [i c] rs IH]; intros cur.
  - reflexivity.
  - cbn [ProcessInput_loop fsm.ProcessInput_loop].
    unfold isValidSymbol, fsm.isValidSymbol, bind at 1, bind at 1. rewrite Halpha.
    unfold ret at 1.
    destruct (fsm.member (fsm.Alphabet a) (string_of_rune c)); cbn [negb].
    + rewrite <- Htf. apply IH.
    + unfold bind, ret. rewrite Halpha. reflexivity.
Qed.

(** Processing is a frame over the store: [ProcessInput] returns what the
    engine returns on the automaton the store holds, and the store it was
    given. *)
Lemma ProcessInput_frame (fa : FiniteAutomaton) (a : fsm.FiniteAutomaton)
    (h h' : store) (input : string) :
  snapshot fa h = Some (a, h') ->
  ProcessInput fa input h = Some (fsm.ProcessInput a input, h).
Proof.
  intros Hs. apply snapshot_inv in Hs. destruct Hs as (_ & Halpha & Hinit & Htf).
  unfold ProcessInput, fsm.ProcessInput. rewrite Hinit.
  apply ProcessInput_loop_frame; assumption.
Qed.

End SharedFacts.

(** ** The specification's properties, on the code *)

Section Claims.
Import go spec strconv modthree.

(** C1. Arithmetic equivalence: on every non-empty string of characters
    '0' and '1' whose value fits the integer width [ParseInt] is asked for
    (below [2 ^ 63]), [ModThree] returns a result, no mismatch error
    occurs, and the result's remainder is the string parsed as a base-2
    integer, modulo 3. *)
Theorem ModThree_arithmetic_equivalence (s : string) :
  s <> "" -> is_binary s = true -> parseBinary s < 2 ^ 63 ->
  (exists r : ModThreeResult,
     ModThree NewModThreeFSM s = inl r /\
     Remainder r = parseBinary s mod 3) /\
  (forall got expected : Z,
     ModThree NewModThreeFSM s <> inr (ResultMismatch got expected)).
Proof.
  intros Hne Hb Hfit. split.
  - rewrite (ModThree_binary s Hne Hb).
    destruct (Z.ltb_spec (parseBinary s) (2 ^ 63)); [| lia].
    eexists. split; reflexivity.
  - intros got expected. apply ModThree_never_mismatch.
Qed.

Lemma ModThree_arithmetic_equivalence_witness :
  (exists r : ModThreeResult,
     ModThree NewModThreeFSM "1101" = inl r /\ Remainder r = 13 mod 3) /\
  (forall got expected : Z,
     ModThree NewModThreeFSM "1101" <> inr (ResultMismatch got expected)).
Proof.
  apply (ModThree_arithmetic_equivalence "1101");
    [discriminate | reflexivity | vm_compute; reflexivity].
Defined.

(** C2. Totality of the transition table: the transition function follows
    the fixed table, maps a state of {S0, S1, S2} and a symbol of
    {"0", "1"} to a state of {S0, S1, S2}, the initial state is S0, and
    from a state of that set the engine's loop can only end in a state of
    that set, whatever it reads. *)
Theorem transition_table_total :
  (transitionFunction "S0" "0" = "S0" /\ transitionFunction "S0" "1" = "S1" /\
   transitionFunction "S1" "0" = "S2" /\ transitionFunction "S1" "1" = "S0" /\
   transitionFunction "S2" "0" = "S1" /\ transitionFunction "S2" "1" = "S2") /\
  (forall (st : fsm.State) (sym : fsm.Symbol),
     is_mod3_state st -> sym = "0" \/ sym = "1" ->
     is_mod3_state (transitionFunction st sym)) /\
  fsm.InitialState (automaton NewModThreeFSM) = "S0" /\
  (forall (cur : fsm.State) (rs : list (Z * rune)),
     is_mod3_state cur ->
     match fsm.ProcessInput_loop (automaton NewModThreeFSM) cur rs with
     | inl st => is_mod3_state st
     | inr _ => True
     end).
Proof.
  assert (Hstep : forall st sym, is_mod3_state st -> is_mod3_state (transitionFunction st sym)).
  { intros st sym [-> | [-> | ->]]; unfold transitionFunction, is_mod3_state;
      cbn [String.eqb Ascii.eqb Bool.eqb];
      destruct (String.eqb sym "0"); auto; destruct (String.eqb sym "1"); auto. }
  split; [repeat split |]. split; [| split; [reflexivity |]].
  - intros st sym Hst _. apply Hstep, Hst.
  - intros cur rs. revert cur. induction rs as [| [i c] rs IH]; intros cur Hcur.
    + exact Hcur.
    + cbn [fsm.ProcessInput_loop].
      destruct (negb (fsm.isValidSymbol (automaton NewModThreeFSM) (string_of_rune c)));
        [exact I |].
      apply IH. apply Hstep, Hcur.
Qed.

Lemma transition_table_total_witness :
  is_mod3_state (transitionFunction "S1" "0").
Proof.
  apply (proj1 (proj2 transition_table_total) "S1" "0").
  - right. left. reflexivity.
  - left. reflexivity.
Defined.

(** C3. Invalid-character rejection: when the input contains a character
    other than '0' or '1', [ModThree] fails with the invalid-digit error
    carrying the first such character of a left-to-right scan and its
    zero-based position, whatever automaton the receiver holds (the engine
    has no part in it).  "102" reports position 2, "a" position 0 and
    "01a" position 2. *)
Theorem ModThree_invalid_digit (m : ModThreeFSM) :
  (forall input : string,
     contains_offending input ->
     exists (n : nat) (r : rune),
       range_string input !! n = Some (Z.of_nat n, r) /\
       offending r /\
       (forall j : nat, (j < n)%nat ->
          exists r', range_string input !! j = Some (Z.of_nat j, r') /\ ~ offending r') /\
       ModThree m input = inr (InvalidDigit r (Z.of_nat n))) /\
  ModThree m "102" = inr (InvalidDigit (ord "2") 2) /\
  ModThree m "a" = inr (InvalidDigit (ord "a") 0) /\
  ModThree m "01a" = inr (InvalidDigit (ord "a") 2).
Proof.
  split; [| repeat split].
  intros input Hc.
  assert (Hne : String.eqb input "" = false).
  { destruct input; [| reflexivity].
    destruct Hc as [p [Hin _]]. apply elem_of_nil in Hin. destruct Hin. }
  destruct (validateInput_loop_first input 0 Hc) as (n & r & Hn & Hr & Hbefore & Hv).
  exists n, r. rewrite Z.add_0_l in *. split; [exact Hn | split; [exact Hr | split]].
  - intros j Hj. destruct (Hbefore j Hj) as (r' & Hj' & Hr').
    exists r'. rewrite Z.add_0_l in Hj'. split; assumption.
  - unfold ModThree, validateInput. rewrite Hne. unfold range_string. rewrite Hv.
    reflexivity.
Qed.

Lemma ModThree_invalid_digit_witness :
  exists (n : nat) (r : rune),
    range_string "0x1y" !! n = Some (Z.of_nat n, r) /\
    offending r /\
    (forall j : nat, (j < n)%nat ->
       exists r', range_string "0x1y" !! j = Some (Z.of_nat j, r') /\ ~ offending r') /\
    ModThree NewModThreeFSM "0x1y" = inr (InvalidDigit r (Z.of_nat n)).
Proof.
  apply (proj1 (ModThree_invalid_digit NewModThreeFSM) "0x1y").
  exists (1, ord "x"). split.
  - replace (range_string "0x1y") with [(0, 48); (1, 120); (2, 49); (3, 121)]
      by (vm_compute; reflexivity).
    apply elem_of_cons. right. apply elem_of_cons. left. reflexivity.
  - split; vm_compute; discriminate.
Defined.

(** C4. Engine-level empty input: for every automaton, [ProcessInput] on
    the empty string returns the initial state and no error. *)
Theorem ProcessInput_empty (fa : fsm.FiniteAutomaton) :
  fsm.ProcessInput fa "" = inl (fsm.InitialState fa).
Proof. reflexivity. Qed.

(** C5. Empty-string rejection: [ModThree] on the empty string fails with
    the empty-input error and returns no result, whatever automaton the
    receiver holds: the automaton is not run. *)
Theorem ModThree_empty (m : ModThreeFSM) :
  ModThree m "" = inr EmptyInput.
Proof. reflexivity. Qed.

(** C6. [stateToRemainder] is total: S0, S1 and S2 map to 0, 1 and 2, and
    every other state maps to -1. *)
Theorem stateToRemainder_table (m : ModThreeFSM) :
  stateToRemainder m "S0" = 0 /\
  stateToRemainder m "S1" = 1 /\
  stateToRemainder m "S2" = 2 /\
  (forall st : fsm.State, ~ is_mod3_state st -> stateToRemainder m st = -1).
Proof.
  repeat split. intros st Hst. unfold stateToRemainder, is_mod3_state in *.
  destruct (String.eqb_spec st "S0"); [tauto |].
  destruct (String.eqb_spec st "S1"); [tauto |].
  destruct (String.eqb_spec st "S2"); [tauto | reflexivity].
Qed.

Lemma stateToRemainder_table_witness :
  stateToRemainder NewModThreeFSM "invalid" = -1.
Proof.
  apply (proj2 (proj2 (proj2 (stateToRemainder_table NewModThreeFSM)))).
  intros [H | [H | H]]; discriminate.
Defined.

(** C7. Leading-zero invariance: for every non-empty string [s] of binary
    digits, [ModThree] on ["0"] followed by [s] yields the remainder it
    yields on [s] (and yields one whenever the value of [s] is below
    [2 ^ 63]). *)
Theorem ModThree_leading_zero (s : string) :
  s <> "" -> is_binary s = true ->
  remainder_of (ModThree NewModThreeFSM (String "0" s))
  = remainder_of (ModThree NewModThreeFSM s) /\
  (parseBinary s < 2 ^ 63 ->
   remainder_of (ModThree NewModThreeFSM (String "0" s)) = Some (parseBinary s mod 3)).
Proof.
  intros Hne Hb.
  assert (Hb0 : is_binary (String "0" s) = true) by (cbn [is_binary]; rewrite Hb; reflexivity).
  assert (Hv : parseBinary (String "0" s) = parseBinary s) by reflexivity.
  rewrite (ModThree_binary (String "0" s) ltac:(discriminate) Hb0).
  rewrite (ModThree_binary s Hne Hb). rewrite Hv.
  destruct (Z.ltb_spec (parseBinary s) (2 ^ 63)) as [Hlt | Hge]; cbn [remainder_of Remainder].
  - split; [reflexivity | intros _; reflexivity].
  - split; [reflexivity | lia].
Qed.

Lemma ModThree_leading_zero_witness :
  remainder_of (ModThree NewModThreeFSM "00101")
  = remainder_of (ModThree NewModThreeFSM "101").
Proof.
  transitivity (remainder_of (ModThree NewModThreeFSM "0101")).
  - apply (proj1 (ModThree_leading_zero "0101" ltac:(discriminate) eq_refl)).
  - apply (proj1 (ModThree_leading_zero "101" ltac:(discriminate) eq_refl)).
Defined.

(** C8. Once [validateInput] has accepted the input, [ProcessInput] on the
    mod-three automaton returns a state and no error, so [ModThree] never
    returns the wrapped engine error. *)
Theorem engine_error_unreachable (input : string) :
  validateInput NewModThreeFSM input = None ->
  (exists st : fsm.State,
     fsm.ProcessInput (automaton NewModThreeFSM) input = inl st) /\
  (forall err : fsm.ProcessError,
     ModThree NewModThreeFSM input <> inr (FSMProcessingError err)).
Proof.
  intros Hv. pose proof (proj1 (validateInput_None _ _) Hv) as [Hne Hb].
  split.
  - eexists. apply (ProcessInput_binary input Hb).
  - intros err. rewrite (ModThree_binary input Hne Hb).
    destruct (parseBinary input <? 2 ^ 63); discriminate.
Qed.

Lemma engine_error_unreachable_witness :
  (exists st : fsm.State,
     fsm.ProcessInput (automaton NewModThreeFSM) "1101" = inl st) /\
  (forall err : fsm.ProcessError,
     ModThree NewModThreeFSM "1101" <> inr (FSMProcessingError err)).
Proof.
  apply (engine_error_unreachable "1101"). reflexivity.
Defined.

(** C10. A non-empty string of binary digits whose value does not fit a
    signed 64-bit integer (at least [2 ^ 63]; for one, any such string of
    64 or more characters that begins with '1') makes [ModThree] fail with
    the parse error, a range error of [ParseInt], and return no result. *)
Theorem ModThree_out_of_range (s : string) :
  s <> "" -> is_binary s = true ->
  2 ^ 63 <= parseBinary s \/
    ((64 <= String.length s)%nat /\ exists tl, s = String "1" tl) ->
  ModThree NewModThreeFSM s = inr (ParseBinaryError (rangeError "ParseInt" s)).
Proof.
  intros Hne Hb Hbig.
  assert (Hge : 2 ^ 63 <= parseBinary s).
  { destruct Hbig as [H | [Hlen [tl ->]]]; [exact H |].
    cbn [is_binary] in Hb. apply andb_true_iff in Hb. destruct Hb as [_ Htl].
    cbn [String.length] in Hlen.
    pose proof (parseBinary_from_ge tl 1 Htl ltac:(lia)) as Hp.
    change (parseBinary (String "1" tl)) with (parseBinary_from 1 tl).
    assert (2 ^ 63 <= 2 ^ Z.of_nat (String.length tl))
      by (apply Z.pow_le_mono_r; lia).
    lia. }
  rewrite (ModThree_binary s Hne Hb).
  destruct (Z.ltb_spec (parseBinary s) (2 ^ 63)); [lia | reflexivity].
Qed.

Lemma ModThree_out_of_range_witness :
  ModThree NewModThreeFSM
    "1000000000000000000000000000000000000000000000000000000000000000"
  = inr (ParseBinaryError (rangeError "ParseInt"
      "1000000000000000000000000000000000000000000000000000000000000000")).
Proof.
  apply ModThree_out_of_range.
  - discriminate.
  - reflexivity.
  - right. split; [vm_compute; lia | eexists; reflexivity].
Defined.

End Claims.

(** ** Accessors and the store *)

Section AccessorFacts.
Import go shared.

(** C9. The caller [client] builds the mod-three automaton, runs it on
    ["0"], writes through the slices [GetAlphabet] and [GetStates] return,
    and runs it on ["0"] again.  The first run ends in S0 and leaves the
    definition as built; after the writes the definition the automaton
    holds has alphabet ["x"; "1"] and states ["S0"; "S1"; "S9"], and the
    same input is rejected as an invalid symbol. *)
Theorem accessor_slices_alias_definition :
  exists (d0 d1 : fsm.FiniteAutomaton) (h : store),
    client ∅ = Some (inl "S0", inr (fsm.InvalidSymbol "0" 0 ["x"; "1"]), d0, d1, h) /\
    fsm.Alphabet d0 = ["0"; "1"] /\ fsm.States d0 = ["S0"; "S1"; "S2"] /\
    fsm.Alphabet d1 = ["x"; "1"] /\ fsm.States d1 = ["S0"; "S1"; "S9"].
Proof.
  destruct (client ∅) as [[[[[before after] d0] d1] h] |] eqn:E.
  - exists d0, d1, h.
    assert (Hobs : option_map (fun r => (fst (fst (fst (fst r))), snd (fst (fst (fst r))),
                                     fsm.Alphabet (snd (fst (fst r))),
                                     fsm.States (snd (fst (fst r))),
                                     fsm.Alphabet (snd (fst r)),
                                     fsm.States (snd (fst r)))) (client ∅)
                   = Some (inl "S0", inr (fsm.InvalidSymbol "0" 0 ["x"; "1"]),
                           ["0"; "1"], ["S0"; "S1"; "S2"], ["x"; "1"], ["S0"; "S1"; "S9"]))
      by (vm_compute; reflexivity).
    rewrite E in Hobs. cbn in Hobs. injection Hobs as -> -> -> -> -> ->.
    repeat split; reflexivity.
  - exfalso. assert (H : is_Some (client ∅)) by (vm_compute; eauto).
    rewrite E in H. destruct H as [? H]. discriminate.
Qed.

End AccessorFacts.

(** * Further properties of the code *)

(** ** The engine on an arbitrary automaton *)

Section EngineFacts.
Import go spec.

Variable fa : fsm.FiniteAutomaton.

Lemma member_elem_of (xs : list string) (x : string) :
  fsm.member xs x = true <-> x ∈ xs.
Proof.
  induction xs as [| y xs IH]; cbn [fsm.member].
  - split; [discriminate | intros H; apply elem_of_nil in H; destruct H].
  - rewrite elem_of_cons. destruct (String.eqb_spec y x) as [-> | Hne].
    + split; auto.
    + rewrite IH. split; [auto | intros [-> | H]; [congruence | exact H]].
Qed.

Lemma ProcessInput_loop_valid (rs : list (Z * rune)) (q : fsm.State) :
  Forall (symbol_ok fa) rs ->
  fsm.ProcessInput_loop fa q rs = inl (delta_star fa q rs).
Proof.
  intros H. revert q. induction H as [| [i c] rs Hc _ IH]; intros q; [reflexivity |].
  cbn [fsm.ProcessInput_loop delta_star fold_left snd].
  unfold symbol_ok in Hc. cbn [snd] in Hc. rewrite Hc. cbn [negb]. apply IH.
Qed.

Lemma ProcessInput_loop_inl_valid (rs : list (Z * rune)) (q st : fsm.State) :
  fsm.ProcessInput_loop fa q rs = inl st -> Forall (symbol_ok fa) rs.
Proof.
  revert q. induction rs as [| [i c] rs IH]; intros q H; [constructor |].
  cbn [fsm.ProcessInput_loop] in H.
  destruct (fsm.isValidSymbol fa (string_of_rune c)) eqn:Hc; cbn [negb] in H;
    [| discriminate].
  constructor; [exact Hc | exact (IH _ H)].
Qed.

Lemma ProcessInput_loop_first_invalid (rs : list (Z * rune)) (q : fsm.State) :
  ~ Forall (symbol_ok fa) rs ->
  exists (n : nat) (i : Z) (r : rune),
    rs !! n = Some (i, r) /\
    fsm.isValidSymbol fa (string_of_rune r) = false /\
    Forall (symbol_ok fa) (take n rs) /\
    fsm.ProcessInput_loop fa q rs
    = inr (fsm.InvalidSymbol (string_of_rune r) i (fsm.Alphabet fa)).
Proof.
  revert q. induction rs as [| [i c] rs IH]; intros q Hn.
  - destruct Hn. constructor.
  - cbn [fsm.ProcessInput_loop].
    destruct (fsm.isValidSymbol fa (string_of_rune c)) eqn:Hc; cbn [negb].
    + destruct (IH (fsm.TransitionFunction fa q (string_of_rune c))) as (n & j & r & Hl & Hr & Hb & Hp).
      { intros Hall. apply Hn. constructor; [exact Hc | exact Hall]. }
      exists (S n), j, r. split; [exact Hl | split; [exact Hr | split; [| exact Hp]]].
      cbn [take]. constructor; [exact Hc | exact Hb].
    + exists 0%nat, i, c. split; [reflexivity | split; [exact Hc | split; [constructor | reflexivity]]].
Qed.

Lemma ProcessInput_loop_invariant (P : fsm.State -> Prop) :
  (forall st sym, P st -> fsm.isValidSymbol fa sym = true ->
                  P (fsm.TransitionFunction fa st sym)) ->
  forall (rs : list (Z * rune)) (q st : fsm.State),
    P q -> fsm.ProcessInput_loop fa q rs = inl st -> P st.
Proof.
  intros Hstep rs. induction rs as [| [i c] rs IH]; intros q st Hq H.
  - cbn in H. injection H as <-. exact Hq.
  - cbn [fsm.ProcessInput_loop] in H.
    destruct (fsm.isValidSymbol fa (string_of_rune c)) eqn:Hc; cbn [negb] in H;
      [| discriminate].
    apply (IH _ _ (Hstep _ _ Hq Hc) H).
Qed.

Lemma ProcessInput_loop_app (rs1 rs2 : list (Z * rune)) (q : fsm.State) :
  fsm.ProcessInput_loop fa q (rs1 ++ rs2)%list
  = match fsm.ProcessInput_loop fa q rs1 with
    | inl q' => fsm.ProcessInput_loop fa q' rs2
    | inr e => inr e
    end.
Proof.
  revert q. induction rs1 as [| [i c] rs1 IH]; intros q; [reflexivity |].
  cbn [app fsm.ProcessInput_loop].
  destruct (negb (fsm.isValidSymbol fa (string_of_rune c))); [reflexivity | apply IH].
Qed.

Lemma range_from_self_cons (k : Z) (c : ascii) (s : string) :
  ord c < runeSelf ->
  range_from k 0 (String c s) = (k, ord c) :: range_from (k + 1) 0 s.
Proof.
  intros H. cbn [range_from]. rewrite rune_at_self by exact H. reflexivity.
Qed.

Lemma range_from_app_ascii (s1 s2 : string) (k : Z) :
  is_ascii s1 = true ->
  range_from k 0 (s1 ++ s2)%string
  = (range_from k 0 s1 ++ range_from (k + Z.of_nat (String.length s1)) 0 s2)%list.
Proof.
  revert k. induction s1 as [| c s1 IH]; intros k Ha.
  - change (EmptyString ++ s2)%string with s2. cbn [String.length Z.of_nat app range_from].
    now rewrite Z.add_0_r.
  - cbn [is_ascii] in Ha. apply andb_true_iff in Ha. destruct Ha as [Hc Hs].
    apply Z.ltb_lt in Hc.
    change (String c s1 ++ s2)%string with (String c (s1 ++ s2)).
    cbn [String.length]. rewrite !range_from_self_cons by exact Hc.
    rewrite IH by exact Hs. cbn [app]. do 3 f_equal. lia.
Qed.

End EngineFacts.

Section EngineProperties.
Import go spec.

Lemma range_from_bounds (s : string) (k : Z) (skip : nat) (p : Z * rune) :
  p ∈ range_from k skip s -> k <= fst p < k + Z.of_nat (String.length s).
Proof.
  revert k skip. induction s as [| c s IH]; intros k skip Hin.
  - cbn in Hin. apply elem_of_nil in Hin. destruct Hin.
  - cbn [String.length]. rewrite Nat2Z.inj_succ. cbn [range_from] in Hin.
    destruct skip as [| n].
    + destruct (rune_at c s) as [r w]. apply elem_of_cons in Hin.
      destruct Hin as [-> | Hin]; [cbn [fst]; lia |].
      specialize (IH _ _ Hin). lia.
    + specialize (IH _ _ Hin). lia.
Qed.

Lemma transition_closed (st : fsm.State) (sym : fsm.Symbol) :
  is_mod3_state st -> is_mod3_state (modthree.transitionFunction st sym).
Proof.
  intros [-> | [-> | ->]]; unfold modthree.transitionFunction, is_mod3_state;
    cbn [String.eqb Ascii.eqb Bool.eqb];
    destruct (String.eqb sym "0"); auto; destruct (String.eqb sym "1"); auto.
Qed.

(** X1. [ProcessInput] returns a state exactly when every symbol of the
    input is in the alphabet, and the state is then the transition
    function iterated over the symbols from the initial state. *)
Theorem ProcessInput_succeeds_iff (fa : fsm.FiniteAutomaton) (input : string) :
  ((exists st, fsm.ProcessInput fa input = inl st)
   <-> Forall (symbol_ok fa) (range_string input)) /\
  (Forall (symbol_ok fa) (range_string input) ->
   fsm.ProcessInput fa input
   = inl (delta_star fa (fsm.InitialState fa) (range_string input))).
Proof.
  split; [split |].
  - intros [st H]. exact (ProcessInput_loop_inl_valid fa _ _ _ H).
  - intros H. eexists. apply (ProcessInput_loop_valid fa _ _ H).
  - intros H. apply (ProcessInput_loop_valid fa _ _ H).
Qed.

Lemma ProcessInput_succeeds_iff_witness :
  fsm.ProcessInput (modthree.automaton modthree.NewModThreeFSM) "10"
  = inl (delta_star (modthree.automaton modthree.NewModThreeFSM) "S0" (range_string "10")).
Proof.
  apply (proj2 (ProcessInput_succeeds_iff (modthree.automaton modthree.NewModThreeFSM) "10")).
  repeat constructor.
Defined.

(** X2. When some symbol of the input is not in the alphabet,
    [ProcessInput] fails with the first such symbol, the byte offset at
    which it starts (inside the input) and the alphabet; every symbol
    before it is in the alphabet. *)
Theorem ProcessInput_reports_first_invalid (fa : fsm.FiniteAutomaton) (input : string) :
  ~ Forall (symbol_ok fa) (range_string input) ->
  exists (n : nat) (i : Z) (r : rune),
    range_string input !! n = Some (i, r) /\
    0 <= i < Z.of_nat (String.length input) /\
    fsm.isValidSymbol fa (string_of_rune r) = false /\
    Forall (symbol_ok fa) (take n (range_string input)) /\
    fsm.ProcessInput fa input
    = inr (fsm.InvalidSymbol (string_of_rune r) i (fsm.Alphabet fa)).
Proof.
  intros H.
  destruct (ProcessInput_loop_first_invalid fa _ (fsm.InitialState fa) H)
    as (n & i & r & Hl & Hr & Hb & Hp).
  exists n, i, r. split; [exact Hl | split; [| auto]].
  apply list_elem_of_lookup_2 in Hl.
  apply (range_from_bounds input 0 0 (i, r)) in Hl. cbn [fst] in Hl. lia.
Qed.

Lemma ProcessInput_reports_first_invalid_witness :
  exists (n : nat) (i : Z) (r : rune),
    range_string "1a0" !! n = Some (i, r) /\
    0 <= i < 3 /\
    fsm.isValidSymbol (modthree.automaton modthree.NewModThreeFSM) (string_of_rune r) = false /\
    Forall (symbol_ok (modthree.automaton modthree.NewModThreeFSM)) (take n (range_string "1a0")) /\
    fsm.ProcessInput (modthree.automaton modthree.NewModThreeFSM) "1a0"
    = inr (fsm.InvalidSymbol (string_of_rune r) i ["0"; "1"]).
Proof.
  apply (ProcessInput_reports_first_invalid (modthree.automaton modthree.NewModThreeFSM) "1a0").
  intros H. apply Forall_cons in H. destruct H as [_ H].
  apply Forall_cons in H. destruct H as [H _]. vm_compute in H. discriminate H.
Defined.

(** X3. Invariant rule of the engine: a property of states that holds of
    the initial state and is kept by every transition on a symbol of the
    alphabet holds of every state [ProcessInput] returns. *)
Theorem ProcessInput_invariant (fa : fsm.FiniteAutomaton) (P : fsm.State -> Prop) :
  P (fsm.InitialState fa) ->
  (forall st sym, P st -> fsm.isValidSymbol fa sym = true ->
                  P (fsm.TransitionFunction fa st sym)) ->
  forall (input : string) (st : fsm.State),
    fsm.ProcessInput fa input = inl st -> P st.
Proof.
  intros Hinit Hstep input st H.
  exact (ProcessInput_loop_invariant fa P Hstep _ _ _ Hinit H).
Qed.

Lemma ProcessInput_invariant_witness :
  is_mod3_state "S1".
Proof.
  apply (ProcessInput_invariant (modthree.automaton modthree.NewModThreeFSM)
           is_mod3_state) with (input := "1101").
  - left. reflexivity.
  - intros st sym Hst _. exact (transition_closed st sym Hst).
  - reflexivity.
Defined.

(** X4. Processing composes over concatenation after an ASCII prefix: a
    failure on the prefix is the result for the whole input, and after a
    prefix that ends in state [q] the rest is processed from [q], with
    positions counted from the length of the prefix. *)
Theorem ProcessInput_app_ascii (fa : fsm.FiniteAutomaton) (s1 s2 : string) :
  is_ascii s1 = true ->
  fsm.ProcessInput fa (s1 ++ s2)%string
  = match fsm.ProcessInput fa s1 with
    | inl q => resume fa q (Z.of_nat (String.length s1)) s2
    | inr e => inr e
    end.
Proof.
  intros Ha. unfold fsm.ProcessInput, range_string, resume.
  rewrite (range_from_app_ascii s1 s2 0 Ha). apply ProcessInput_loop_app.
Qed.

Lemma ProcessInput_app_ascii_witness :
  fsm.ProcessInput (modthree.automaton modthree.NewModThreeFSM) ("11" ++ "0x")%string
  = resume (modthree.automaton modthree.NewModThreeFSM) "S0" 2 "0x".
Proof.
  apply (ProcessInput_app_ascii (modthree.automaton modthree.NewModThreeFSM) "11" "0x").
  reflexivity.
Defined.

(** X5. The membership loops: [isValidSymbol] answers whether the symbol
    is an element of the alphabet, [IsAcceptingState] whether the state is
    an element of the accepting states. *)
Theorem membership_tests (fa : fsm.FiniteAutomaton) (x : string) :
  (fsm.isValidSymbol fa x = true <-> x ∈ fsm.Alphabet fa) /\
  (fsm.IsAcceptingState fa x = true <-> x ∈ fsm.AcceptingStates fa).
Proof.
  split; apply member_elem_of.
Qed.

Lemma membership_tests_witness :
  "1" ∈ fsm.Alphabet (modthree.automaton modthree.NewModThreeFSM).
Proof.
  apply (proj1 (proj1 (membership_tests (modthree.automaton modthree.NewModThreeFSM) "1"))).
  reflexivity.
Defined.

End EngineProperties.

(** ** The mod-three layer *)

Section ModThreeProperties.
Import go spec strconv modthree.

Lemma validateInput_loop_Some (rs : list (Z * rune)) (e : Error) :
  validateInput_loop rs = Some e ->
  exists (i : Z) (c : rune), (i, c) ∈ rs /\ e = InvalidDigit c i /\ offending c.
Proof.
  induction rs as [| [i c] rs IH]; cbn [validateInput_loop]; [discriminate |].
  destruct (negb (c =? ord "0") && negb (c =? ord "1"))%bool eqn:E.
  - intros H. injection H as <-. exists i, c. split; [apply elem_of_cons; auto |].
    split; [reflexivity |]. apply andb_true_iff in E. destruct E as [E0 E1].
    apply negb_true_iff in E0, E1. apply Z.eqb_neq in E0, E1. split; assumption.
  - intros H. destruct (IH H) as (j & d & Hin & He & Hd).
    exists j, d. split; [apply elem_of_cons; auto | auto].
Qed.

(** What [ModThree] returns on a non-empty string of binary digits, for a
    receiver with any automaton. *)
Lemma ModThree_binary_any (m : ModThreeFSM) (s : string) :
  s <> "" -> is_binary s = true ->
  ModThree m s
  = match fsm.ProcessInput (automaton m) s with
    | inr e => inr (FSMProcessingError e)
    | inl st =>
      if parseBinary s <? 2 ^ 63 then
        if stateToRemainder m st =? parseBinary s mod 3
        then inl {| Input := s;
                    FinalState := st;
                    Remainder := stateToRemainder m st;
                    BinaryValue := parseBinary s;
                    DecimalValue := parseBinary s |}
        else inr (ResultMismatch (stateToRemainder m st) (parseBinary s mod 3))
      else inr (ParseBinaryError (rangeError "ParseInt" s))
    end.
Proof.
  intros Hne Hb. pose proof (parseBinary_nonneg s Hb) as Hpos.
  unfold ModThree. rewrite (proj2 (validateInput_None m s) (conj Hne Hb)).
  destruct (fsm.ProcessInput (automaton m) s) as [st | e]; [| reflexivity].
  rewrite (ParseInt_binary s Hne Hb).
  destruct (Z.ltb_spec (parseBinary s) (2 ^ 63)) as [Hlt | Hge]; [| reflexivity].
  rewrite Z.rem_mod_nonneg by lia.
  pose proof (Z.mod_pos_bound (parseBinary s) 3 ltac:(lia)) as Hm.
  rewrite !to_int_small by lia.
  destruct (stateToRemainder m st =? parseBinary s mod 3); reflexivity.
Qed.

(** X6. [validateInput] accepts exactly the non-empty strings of binary
    digits, answers the empty-input error exactly on the empty string, and
    otherwise answers an invalid-digit error whose character is neither
    '0' nor '1' and whose position is a byte offset inside the input. *)
Theorem validateInput_classification (m : ModThreeFSM) (input : string) :
  (validateInput m input = None <-> input <> "" /\ is_binary input = true) /\
  (validateInput m input = Some EmptyInput <-> input = "") /\
  (forall e, validateInput m input = Some e -> input <> "" ->
     exists (c : rune) (p : Z),
       e = InvalidDigit c p /\ offending c /\
       0 <= p < Z.of_nat (String.length input)).
Proof.
  split; [apply validateInput_None | split].
  - unfold validateInput. destruct (String.eqb_spec input "") as [-> | Hne].
    + split; reflexivity.
    + split; [| congruence]. intros H.
      apply validateInput_loop_Some in H. destruct H as (i & c & _ & He & _). discriminate.
  - intros e H Hne. unfold validateInput in H.
    destruct (String.eqb_spec input "") as [-> | _]; [congruence |].
    apply validateInput_loop_Some in H. destruct H as (i & c & Hin & -> & Hc).
    exists c, i. split; [reflexivity | split; [exact Hc |]].
    apply (range_from_bounds input 0 0 (i, c)) in Hin. cbn [fst] in Hin. lia.
Qed.

Lemma validateInput_classification_witness :
  exists (c : rune) (p : Z),
    Some (InvalidDigit 120 1) = Some (InvalidDigit c p) /\ offending c /\ 0 <= p < 2.
Proof.
  destruct (proj2 (proj2 (validateInput_classification NewModThreeFSM "0x"))
              (InvalidDigit 120 1) eq_refl ltac:(discriminate)) as (c & p & He & Hc & Hp).
  exists c, p. split; [now rewrite He | split; [exact Hc | exact Hp]].
Defined.

(** X7. Whatever automaton the receiver holds, a result [ModThree] returns
    is right: it echoes the input, its final state is the one the engine
    returned, its remainder is that state's remainder and equals the
    input's binary value modulo 3, and both value fields hold that value,
    which is below [2 ^ 63]. *)
Theorem ModThree_result_sound (m : ModThreeFSM) (input : string) (r : ModThreeResult) :
  ModThree m input = inl r ->
  Input r = input /\
  fsm.ProcessInput (automaton m) input = inl (FinalState r) /\
  Remainder r = stateToRemainder m (FinalState r) /\
  Remainder r = parseBinary input mod 3 /\
  DecimalValue r = parseBinary input /\
  BinaryValue r = DecimalValue r /\
  0 <= parseBinary input < 2 ^ 63.
Proof.
  intros H.
  assert (Hv : validateInput m input = None).
  { unfold ModThree in H. destruct (validateInput m input); [discriminate | reflexivity]. }
  apply validateInput_None in Hv. destruct Hv as [Hne Hb].
  pose proof (parseBinary_nonneg input Hb) as Hpos.
  rewrite (ModThree_binary_any m input Hne Hb) in H.
  destruct (fsm.ProcessInput (automaton m) input) as [st | e]; [| discriminate].
  destruct (Z.ltb_spec (parseBinary input) (2 ^ 63)) as [Hlt | Hge]; [| discriminate].
  destruct (Z.eqb_spec (stateToRemainder m st) (parseBinary input mod 3)) as [Heq | Hneq];
    [| discriminate].
  injection H as <-. cbn. repeat split; auto; lia.
Qed.

Lemma ModThree_result_sound_witness :
  Remainder {| Input := "1101"; FinalState := "S1"; Remainder := 1;
               BinaryValue := 13; DecimalValue := 13 |} = parseBinary "1101" mod 3.
Proof.
  apply (ModThree_result_sound NewModThreeFSM "1101"). reflexivity.
Defined.

(** X8. On a non-empty string of binary digits and for any automaton, the
    failures of [ModThree] come in a fixed order: an engine error is
    returned wrapped; otherwise a value of [2 ^ 63] or more gives the
    parse error; otherwise a state whose remainder differs from the value
    modulo 3 gives the mismatch error carrying both remainders; otherwise
    the result is returned. *)
Theorem ModThree_error_order (m : ModThreeFSM) (s : string) :
  s <> "" -> is_binary s = true ->
  (forall e, fsm.ProcessInput (automaton m) s = inr e ->
             ModThree m s = inr (FSMProcessingError e)) /\
  (forall st, fsm.ProcessInput (automaton m) s = inl st ->
     (2 ^ 63 <= parseBinary s ->
      ModThree m s = inr (ParseBinaryError (rangeError "ParseInt" s))) /\
     (parseBinary s < 2 ^ 63 ->
      stateToRemainder m st <> parseBinary s mod 3 ->
      ModThree m s = inr (ResultMismatch (stateToRemainder m st) (parseBinary s mod 3))) /\
     (parseBinary s < 2 ^ 63 ->
      stateToRemainder m st = parseBinary s mod 3 ->
      exists r, ModThree m s = inl r /\ FinalState r = st)).
Proof.
  intros Hne Hb. rewrite (ModThree_binary_any m s Hne Hb). split.
  - intros e ->. reflexivity.
  - intros st ->. split; [| split].
    + intros H. destruct (Z.ltb_spec (parseBinary s) (2 ^ 63)); [lia | reflexivity].
    + intros H Hd. destruct (Z.ltb_spec (parseBinary s) (2 ^ 63)); [| lia].
      destruct (Z.eqb_spec (stateToRemainder m st) (parseBinary s mod 3)); [congruence | reflexivity].
    + intros H Hd. destruct (Z.ltb_spec (parseBinary s) (2 ^ 63)); [| lia].
      destruct (Z.eqb_spec (stateToRemainder m st) (parseBinary s mod 3)); [| congruence].
      eexists. split; reflexivity.
Qed.

Lemma ModThree_error_order_witness :
  ModThree {| automaton := fsm.NewFiniteAutomaton ["S0"; "S1"; "S2"] ["0"; "1"] "S0"
                             ["S0"; "S1"; "S2"] (fun st _ => st) |} "1"
  = inr (ResultMismatch 0 1).
Proof.
  pose proof (ModThree_error_order
           {| automaton := fsm.NewFiniteAutomaton ["S0"; "S1"; "S2"] ["0"; "1"] "S0"
                             ["S0"; "S1"; "S2"] (fun st _ => st) |} "1"
           ltac:(discriminate) eq_refl) as [_ H].
  destruct (H "S0" eq_refl) as (_ & Hmis & _).
  apply Hmis.
  - vm_compute. reflexivity.
  - vm_compute. discriminate.
Defined.

(** X9. With the automaton [NewModThreeFSM] builds, [ModThree] returns a
    result exactly on the non-empty strings of binary digits whose value
    is below [2 ^ 63]. *)
Theorem ModThree_succeeds_iff (s : string) :
  (exists r, ModThree NewModThreeFSM s = inl r)
  <-> s <> "" /\ is_binary s = true /\ parseBinary s < 2 ^ 63.
Proof.
  split.
  - intros [r H].
    assert (Hv : validateInput NewModThreeFSM s = None).
    { unfold ModThree in H. destruct (validateInput NewModThreeFSM s); [discriminate | reflexivity]. }
    apply validateInput_None in Hv. destruct Hv as [Hne Hb].
    rewrite (ModThree_binary s Hne Hb) in H.
    destruct (Z.ltb_spec (parseBinary s) (2 ^ 63)); [auto | discriminate].
  - intros (Hne & Hb & Hlt). rewrite (ModThree_binary s Hne Hb).
    destruct (Z.ltb_spec (parseBinary s) (2 ^ 63)); [eexists; reflexivity | lia].
Qed.

Lemma ModThree_succeeds_iff_witness :
  exists r, ModThree NewModThreeFSM "1010" = inl r.
Proof.
  apply (proj2 (ModThree_succeeds_iff "1010")).
  split; [discriminate | split; [reflexivity | vm_compute; reflexivity]].
Defined.

End ModThreeProperties.

(** ** The mod-three automaton as arithmetic *)

Section Mod3Properties.
Import go spec strconv modthree.

Lemma parseBinary_from_shift (s : string) (a : Z) :
  parseBinary_from a s = a * 2 ^ Z.of_nat (String.length s) + parseBinary s.
Proof.
  unfold parseBinary. revert a. induction s as [| c s IH]; intros a.
  - cbn. lia.
  - cbn [parseBinary_from String.length]. rewrite pow2_succ.
    rewrite (IH (2 * a + (ord c - ord "0"))), (IH (2 * 0 + (ord c - ord "0"))). lia.
Qed.

Lemma parseBinary_from_app (s1 s2 : string) (a : Z) :
  parseBinary_from a (s1 ++ s2)%string = parseBinary_from (parseBinary_from a s1) s2.
Proof.
  revert a. induction s1 as [| c s1 IH]; intros a; [reflexivity |].
  change (String c s1 ++ s2)%string with (String c (s1 ++ s2)).
  cbn [parseBinary_from]. apply IH.
Qed.

Lemma is_binary_app (s1 s2 : string) :
  is_binary (s1 ++ s2)%string = (is_binary s1 && is_binary s2)%bool.
Proof.
  induction s1 as [| c s1 IH]; [reflexivity |].
  change (String c s1 ++ s2)%string with (String c (s1 ++ s2)).
  cbn [is_binary]. rewrite IH. now rewrite andb_assoc.
Qed.

Lemma remainder_of_Some (s : string) (r : Z) :
  remainder_of (ModThree NewModThreeFSM s) = Some r ->
  s <> "" /\ is_binary s = true /\ parseBinary s < 2 ^ 63 /\ r = parseBinary s mod 3.
Proof.
  intros H.
  assert (Hv : validateInput NewModThreeFSM s = None).
  { unfold ModThree in H. destruct (validateInput NewModThreeFSM s); [discriminate | reflexivity]. }
  apply validateInput_None in Hv. destruct Hv as [Hne Hb].
  rewrite (ModThree_binary s Hne Hb) in H.
  destruct (Z.ltb_spec (parseBinary s) (2 ^ 63)); [| discriminate].
  cbn in H. injection H as <-. auto.
Qed.

(** X10. One transition is one step of binary reading on remainders: from
    a state of {S0, S1, S2} with remainder [r], the symbol "0" leads to
    the state with remainder [2 r mod 3] and the symbol "1" to the state
    with remainder [(2 r + 1) mod 3]. *)
Theorem transition_step_arithmetic (m : ModThreeFSM) (st : fsm.State) :
  is_mod3_state st ->
  stateToRemainder m (transitionFunction st "0") = (2 * stateToRemainder m st) mod 3 /\
  stateToRemainder m (transitionFunction st "1") = (2 * stateToRemainder m st + 1) mod 3.
Proof.
  intros [-> | [-> | ->]]; split; reflexivity.
Qed.

Lemma transition_step_arithmetic_witness :
  stateToRemainder NewModThreeFSM (transitionFunction "S2" "0")
  = (2 * stateToRemainder NewModThreeFSM "S2") mod 3.
Proof.
  apply (proj1 (transition_step_arithmetic NewModThreeFSM "S2"
                  (or_intror (or_intror eq_refl)))).
Defined.

(** X11. The transition function changes nothing it does not know: on a
    symbol other than "0" and "1", and on a state other than S0, S1, S2,
    it returns the current state. *)
Theorem transition_self_loop (st : fsm.State) (sym : fsm.Symbol) :
  (sym <> "0" /\ sym <> "1") \/ ~ is_mod3_state st ->
  transitionFunction st sym = st.
Proof.
  intros H. unfold transitionFunction, is_mod3_state in *.
  destruct H as [[N0 N1] | Hst].
  - apply String.eqb_neq in N0, N1. rewrite N0, N1.
    destruct (String.eqb st "S0"), (String.eqb st "S1"), (String.eqb st "S2"); reflexivity.
  - destruct (String.eqb_spec st "S0") as [E | _]; [tauto |].
    destruct (String.eqb_spec st "S1") as [E | _]; [tauto |].
    destruct (String.eqb_spec st "S2") as [E | _]; [tauto | reflexivity].
Qed.

Lemma transition_self_loop_witness :
  transitionFunction "S1" "2" = "S1" /\ transitionFunction "S7" "1" = "S7".
Proof.
  split.
  - apply transition_self_loop. left. split; discriminate.
  - apply transition_self_loop. right. intros [H | [H | H]]; discriminate.
Defined.

(** X12. Every state [ProcessInput] returns on the mod-three automaton is
    one of its declared states, is accepting, and maps to a remainder 0,
    1 or 2: the sentinel -1 of [stateToRemainder] is never produced from
    a run. *)
Theorem final_state_declared (input : string) (st : fsm.State) :
  fsm.ProcessInput (automaton NewModThreeFSM) input = inl st ->
  st ∈ fsm.GetStates (automaton NewModThreeFSM) /\
  fsm.IsAcceptingState (automaton NewModThreeFSM) st = true /\
  0 <= stateToRemainder NewModThreeFSM st <= 2.
Proof.
  intros H.
  assert (Hst : is_mod3_state st).
  { apply (ProcessInput_loop_invariant (automaton NewModThreeFSM) is_mod3_state)
      with (rs := range_string input) (q := "S0").
    - intros q sym Hq _. exact (transition_closed q sym Hq).
    - left. reflexivity.
    - exact H. }
  destruct Hst as [-> | [-> | ->]]; (split; [| split; [reflexivity | cbn; lia]]);
    cbn; rewrite !elem_of_cons; auto.
Qed.

Lemma final_state_declared_witness :
  "S2" ∈ fsm.GetStates (automaton NewModThreeFSM) /\
  fsm.IsAcceptingState (automaton NewModThreeFSM) "S2" = true /\
  0 <= stateToRemainder NewModThreeFSM "S2" <= 2.
Proof.
  apply (final_state_declared "1110"). reflexivity.
Defined.

(** X13. Remainders compose over concatenation: when [ModThree] yields
    remainder [r1] on [s1] and [r2] on [s2], and the value of [s1 ++ s2]
    is below [2 ^ 63], it yields [(r1 * 2 ^ len s2 + r2) mod 3] on
    [s1 ++ s2]. *)
Theorem ModThree_remainder_app (s1 s2 : string) (r1 r2 : Z) :
  remainder_of (ModThree NewModThreeFSM s1) = Some r1 ->
  remainder_of (ModThree NewModThreeFSM s2) = Some r2 ->
  parseBinary (s1 ++ s2)%string < 2 ^ 63 ->
  remainder_of (ModThree NewModThreeFSM (s1 ++ s2)%string)
  = Some ((r1 * 2 ^ Z.of_nat (String.length s2) + r2) mod 3).
Proof.
  intros H1 H2 Hfit.
  apply remainder_of_Some in H1, H2.
  destruct H1 as (Hne1 & Hb1 & _ & ->). destruct H2 as (Hne2 & Hb2 & _ & ->).
  assert (Hb : is_binary (s1 ++ s2)%string = true)
    by (rewrite is_binary_app, Hb1, Hb2; reflexivity).
  assert (Hne : (s1 ++ s2)%string <> "").
  { destruct s1; [congruence | discriminate]. }
  rewrite (ModThree_binary _ Hne Hb).
  destruct (Z.ltb_spec (parseBinary (s1 ++ s2)%string) (2 ^ 63)); [| lia].
  cbn [remainder_of Remainder]. f_equal.
  unfold parseBinary at 1. rewrite parseBinary_from_app, parseBinary_from_shift.
  fold (parseBinary s1).
  set (p := 2 ^ Z.of_nat (String.length s2)).
  rewrite (Z.add_mod (parseBinary s1 * p) (parseBinary s2)) by lia.
  rewrite (Z.add_mod (parseBinary s1 mod 3 * p) (parseBinary s2 mod 3)) by lia.
  rewrite Z.mul_mod_idemp_l by lia. rewrite Z.mod_mod by lia. reflexivity.
Qed.

Lemma ModThree_remainder_app_witness :
  remainder_of (ModThree NewModThreeFSM ("110" ++ "1")%string)
  = Some ((0 * 2 ^ Z.of_nat (String.length "1") + 1) mod 3).
Proof.
  apply (ModThree_remainder_app "110" "1" 0 1); [reflexivity | reflexivity |].
  vm_compute. reflexivity.
Defined.

End Mod3Properties.

(** ** Slices shared between the automaton and its callers *)

Section SharedProperties.
Import go shared.

Lemma slice_store_read (sl : Slice) (h : store) (xs : list string) (i : nat) (v : string) :
  slice_elems sl h = Some (xs, h) -> (i < length xs)%nat ->
  exists h' : store,
    slice_store sl i v h = Some (tt, h') /\
    slice_elems sl h' = Some (<[i := v]> xs, h').
Proof.
  unfold slice_elems, slice_store. destruct (h !! array sl) as [arr |] eqn:E; [| discriminate].
  intros H Hi. injection H as <-.
  assert (Hlen : (i < len sl)%nat).
  { rewrite length_take in Hi. lia. }
  apply Nat.ltb_lt in Hlen as Hlt. rewrite Hlt.
  eexists. split; [reflexivity |].
  rewrite lookup_insert_eq. rewrite take_insert_lt by exact Hlen. reflexivity.
Qed.

(** X14. Processing is a frame over the store: [ProcessInput] on an
    automaton whose slices are allocated returns the store it was given,
    and its result is the engine's result on the elements the slices hold
    at the call. *)
Theorem ProcessInput_reads_only (fa : FiniteAutomaton) (a : fsm.FiniteAutomaton)
    (h h' : store) (input : string) :
  snapshot fa h = Some (a, h') ->
  h' = h /\ ProcessInput fa input h = Some (fsm.ProcessInput a input, h).
Proof.
  intros Hs. split.
  - apply snapshot_inv in Hs. tauto.
  - exact (ProcessInput_frame fa a h h' input Hs).
Qed.

Lemma ProcessInput_reads_only_witness :
  ProcessInput
     {| States := mkSlice 1 1; Alphabet := mkSlice 2 2; InitialState := "S0";
        AcceptingStates := mkSlice 1 1; TransitionFunction := fun st _ => st |}
     "01" (<[2%positive := ["0"; "1"]]> (<[1%positive := ["S0"]]> (∅ : store)))
  = Some (inl "S0", (<[2%positive := ["0"; "1"]]> (<[1%positive := ["S0"]]> (∅ : store)))).
Proof.
  refine (proj2 (ProcessInput_reads_only
     {| States := mkSlice 1 1; Alphabet := mkSlice 2 2; InitialState := "S0";
        AcceptingStates := mkSlice 1 1; TransitionFunction := fun st _ => st |}
     (fsm.mkFiniteAutomaton ["S0"] ["0"; "1"] "S0" ["S0"] (fun st _ => st))
     (<[2%positive := ["0"; "1"]]> (<[1%positive := ["S0"]]> (∅ : store))) (<[2%positive := ["0"; "1"]]> (<[1%positive := ["S0"]]> (∅ : store))) "01" _)).
  vm_compute. reflexivity.
Defined.

(** X15. The slice [GetAlphabet] returns is the automaton's own: after an
    assignment to its element [i], the alphabet the automaton reads is the
    old one with element [i] replaced, so the value written is a valid
    symbol from then on. *)
Theorem GetAlphabet_write_through (fa : FiniteAutomaton) (h : store)
    (xs : list string) (i : nat) (v : string) :
  slice_elems (Alphabet fa) h = Some (xs, h) -> (i < length xs)%nat ->
  exists h' : store,
    (do view <- GetAlphabet fa; slice_store view i v) h = Some (tt, h') /\
    slice_elems (Alphabet fa) h' = Some (<[i := v]> xs, h') /\
    isValidSymbol fa v h' = Some (true, h').
Proof.
  intros Hx Hi. destruct (slice_store_read _ _ _ i v Hx Hi) as (h' & Hst & Hrd).
  exists h'. split; [exact Hst | split; [exact Hrd |]].
  unfold isValidSymbol, bind, ret. rewrite Hrd. do 2 f_equal.
  apply member_elem_of. apply list_elem_of_lookup. exists i.
  apply list_lookup_insert_eq. exact Hi.
Qed.

Lemma GetAlphabet_write_through_witness :
  exists h' : store,
    (do view <- GetAlphabet
       {| States := mkSlice 1 1; Alphabet := mkSlice 2 2; InitialState := "S0";
        AcceptingStates := mkSlice 1 1; TransitionFunction := fun st _ => st |};
     slice_store view 0 "x") (<[2%positive := ["0"; "1"]]> (<[1%positive := ["S0"]]> (∅ : store))) = Some (tt, h') /\
    slice_elems (mkSlice 2 2) h' = Some (["x"; "1"], h') /\
    isValidSymbol
       {| States := mkSlice 1 1; Alphabet := mkSlice 2 2; InitialState := "S0";
        AcceptingStates := mkSlice 1 1; TransitionFunction := fun st _ => st |} "x" h' = Some (true, h').
Proof.
  apply (GetAlphabet_write_through
     {| States := mkSlice 1 1; Alphabet := mkSlice 2 2; InitialState := "S0";
        AcceptingStates := mkSlice 1 1; TransitionFunction := fun st _ => st |}
     (<[2%positive := ["0"; "1"]]> (<[1%positive := ["S0"]]> (∅ : store))) ["0"; "1"] 0 "x").
  - vm_compute. reflexivity.
  - cbn. lia.
Defined.

(** X16. [NewFiniteAutomaton] keeps the slices it is given: an assignment
    the caller makes afterwards to element [i] of the slice it passed as
    alphabet changes the alphabet of the automaton. *)
Theorem NewFiniteAutomaton_shares_alphabet (states alphabet acceptingStates : Slice)
    (initialState : fsm.State) (transitionFunction : fsm.TransitionFunctionT)
    (h : store) (xs : list string) (i : nat) (v : string) :
  slice_elems alphabet h = Some (xs, h) -> (i < length xs)%nat ->
  exists (fa : FiniteAutomaton) (h' : store),
    (do fa <- NewFiniteAutomaton states alphabet initialState acceptingStates
                transitionFunction;
     do _ <- slice_store alphabet i v;
     ret fa) h = Some (fa, h') /\
    slice_elems (Alphabet fa) h' = Some (<[i := v]> xs, h').
Proof.
  intros Hx Hi. destruct (slice_store_read _ _ _ i v Hx Hi) as (h' & Hst & Hrd).
  eexists. exists h'. unfold bind, NewFiniteAutomaton, ret at 1. rewrite Hst.
  split; [reflexivity | exact Hrd].
Qed.

Lemma NewFiniteAutomaton_shares_alphabet_witness :
  exists (fa : FiniteAutomaton) (h' : store),
    (do fa <- NewFiniteAutomaton (mkSlice 1 1) (mkSlice 2 2) "S0" (mkSlice 1 1)
                (fun st _ => st);
     do _ <- slice_store (mkSlice 2 2) 1 "2";
     ret fa) (<[2%positive := ["0"; "1"]]> (<[1%positive := ["S0"]]> (∅ : store))) = Some (fa, h') /\
    slice_elems (Alphabet fa) h' = Some (["0"; "2"], h').
Proof.
  apply (NewFiniteAutomaton_shares_alphabet (mkSlice 1 1) (mkSlice 2 2) (mkSlice 1 1)
           "S0" (fun st _ => st) (<[2%positive := ["0"; "1"]]> (<[1%positive := ["S0"]]> (∅ : store))) ["0"; "1"] 1 "2").
  - vm_compute. reflexivity.
  - cbn. lia.
Defined.

End SharedProperties.

(** ** The test helper [contains] and the [String] methods *)

Section ContainsFacts.
Import spec fsm_test.

Local Abbreviation L := list_ascii_of_string.

Lemma length_L (s : string) : length (L s) = String.length s.
Proof. induction s as [| c s IH]; cbn; [reflexivity | now rewrite IH]. Qed.

Lemma L_app (s1 s2 : string) : L (s1 ++ s2)%string = (L s1 ++ L s2)%list.
Proof.
  induction s1 as [| c s1 IH]; [reflexivity |].
  change (String c s1 ++ s2)%string with (String c (s1 ++ s2)). cbn. now rewrite IH.
Qed.

Lemma L_inj (s1 s2 : string) : L s1 = L s2 -> s1 = s2.
Proof.
  intros H. rewrite <- (string_of_list_ascii_of_string s1),
    <- (string_of_list_ascii_of_string s2). now rewrite H.
Qed.

(** Occurrence, on the lists of bytes. *)
Lemma occurs_in_L (substr s : string) :
  occurs_in substr s <-> exists pre post, L s = (pre ++ L substr ++ post)%list.
Proof.
  split.
  - intros (pre & post & ->). exists (L pre), (L post). now rewrite !L_app.
  - intros (pre & post & H).
    exists (string_of_list_ascii pre), (string_of_list_ascii post).
    apply L_inj. rewrite !L_app, !list_ascii_of_string_of_list_ascii. exact H.
Qed.

Lemma str_slice_in_range (s : string) (lo hi : nat) :
  (lo <= hi)%nat -> (hi <= String.length s)%nat ->
  str_slice s lo hi = Some (string_of_list_ascii (take (hi - lo) (drop lo (L s)))).
Proof.
  intros H1 H2. unfold str_slice.
  apply Nat.leb_le in H1, H2. now rewrite H1, H2.
Qed.

Lemma eqb_of_list (x : list ascii) (s : string) :
  String.eqb (string_of_list_ascii x) s = true <-> x = L s.
Proof.
  rewrite String.eqb_eq. split.
  - intros <-. now rewrite list_ascii_of_string_of_list_ascii.
  - intros ->. apply string_of_list_ascii_of_string.
Qed.

Lemma contains_fuel_unfold (fuel : nat) (s substr : string) :
  contains_fuel fuel s substr
  = if negb (String.length substr <=? String.length s)%nat then Done false
    else if String.eqb s substr then Done true
    else if negb (String.length substr <? String.length s)%nat then Done false
    else
      match str_slice s 0 (String.length substr) with
      | None => Panicked
      | Some p =>
        if String.eqb p substr then Done true
        else
          match str_slice s (String.length s - String.length substr) (String.length s) with
          | None => Panicked
          | Some q =>
            if String.eqb q substr then Done true
            else
              match str_slice s 1 (String.length s - 1) with
              | None => Panicked
              | Some mid =>
                match fuel with
                | O => NoFuel
                | S n => contains_fuel n mid substr
                end
              end
          end
      end.
Proof. destruct fuel; reflexivity. Qed.

(** One evaluation of the body: either it ends in a boolean that says
    whether [substr] occurs in [s], whatever the fuel, or it recurses on
    [s] without its first and last byte, in which [substr] occurs exactly
    when it occurs in [s]. *)
Lemma contains_step (s substr : string) :
  (exists b : bool,
     (forall fuel, contains_fuel fuel s substr = Done b) /\
     (b = true <-> occurs_in substr s)) \/
  (exists mid : string,
     (String.length mid + 2 = String.length s)%nat /\
     (forall fuel, contains_fuel fuel s substr
                   = match fuel with
                     | O => NoFuel
                     | S n => contains_fuel n mid substr
                     end) /\
     (occurs_in substr mid <-> occurs_in substr s)).
Proof.
  pose proof (length_L s) as Hls. pose proof (length_L substr) as Hlt.
  set (l := L s) in *. set (t := L substr) in *.
  destruct (Nat.leb_spec (String.length substr) (String.length s)) as [Hle | Hgt].
  2: { left. exists false. split.
       - intros fuel. rewrite contains_fuel_unfold.
         destruct (Nat.leb_spec (String.length substr) (String.length s)); [lia | reflexivity].
       - rewrite occurs_in_L. fold l t. split; [discriminate |]. intros (pre & post & H).
         apply (f_equal (@length ascii)) in H. rewrite !length_app in H. lia. }
  destruct (String.eqb_spec s substr) as [Heq | Hne].
  { left. exists true. split.
    - intros fuel. rewrite contains_fuel_unfold.
      destruct (Nat.leb_spec (String.length substr) (String.length s)); [| lia].
      cbn [negb]. destruct (String.eqb_spec s substr); [reflexivity | congruence].
    - rewrite occurs_in_L. split; [| reflexivity]. intros _. exists [], []. subst s.
      now rewrite app_nil_r. }
  destruct (Nat.ltb_spec (String.length substr) (String.length s)) as [Hlt' | Hge].
  2: { left. exists false. split.
       - intros fuel. rewrite contains_fuel_unfold.
         destruct (Nat.leb_spec (String.length substr) (String.length s)); [| lia].
         cbn [negb]. destruct (String.eqb_spec s substr); [congruence |].
         destruct (Nat.ltb_spec (String.length substr) (String.length s)); [lia | reflexivity].
       - rewrite occurs_in_L. fold l t. split; [discriminate |]. intros (pre & post & H). exfalso. apply Hne, L_inj. fold l t.
         pose proof (f_equal (@length ascii) H) as Hlen. rewrite !length_app in Hlen.
         assert (pre = []) by (destruct pre; [reflexivity | cbn in Hlen; lia]).
         assert (post = []) by (destruct post; [reflexivity | cbn in Hlen; lia]).
         subst pre post. now rewrite app_nil_r in H. }
  assert (Hhead : forall fuel, contains_fuel fuel s substr
     = match str_slice s 0 (String.length substr) with
       | None => Panicked
       | Some p =>
         if String.eqb p substr then Done true
         else
           match str_slice s (String.length s - String.length substr) (String.length s) with
           | None => Panicked
           | Some q =>
             if String.eqb q substr then Done true
             else
               match str_slice s 1 (String.length s - 1) with
               | None => Panicked
               | Some mid =>
                 match fuel with
                 | O => NoFuel
                 | S n => contains_fuel n mid substr
                 end
               end
           end
       end).
  { intros fuel. rewrite contains_fuel_unfold.
    destruct (Nat.leb_spec (String.length substr) (String.length s)); [| lia].
    cbn [negb]. destruct (String.eqb_spec s substr); [congruence |].
    destruct (Nat.ltb_spec (String.length substr) (String.length s)); [reflexivity | lia]. }
  rewrite (str_slice_in_range s 0 (String.length substr)) in Hhead by lia.
  rewrite Nat.sub_0_r, drop_0 in Hhead. fold l in Hhead.
  destruct (String.eqb (string_of_list_ascii (take (String.length substr) l)) substr) eqn:Ep.
  { left. exists true. split; [exact Hhead |]. rewrite occurs_in_L. fold l t.
    split; [| reflexivity]. intros _.
    apply eqb_of_list in Ep. fold t in Ep.
    exists [], (drop (String.length substr) l). cbn [app]. rewrite <- Ep.
    now rewrite take_drop. }
  rewrite (str_slice_in_range s (String.length s - String.length substr) (String.length s))
    in Hhead by lia.
  fold l in Hhead.
  replace (take (String.length s - (String.length s - String.length substr))
             (drop (String.length s - String.length substr) l))
    with (drop (String.length s - String.length substr) l) in Hhead
    by (symmetry; apply take_ge; rewrite length_drop; lia).
  destruct (String.eqb (string_of_list_ascii
              (drop (String.length s - String.length substr) l)) substr) eqn:Eq.
  { left. exists true. split; [exact Hhead |]. rewrite occurs_in_L. fold l t.
    split; [| reflexivity]. intros _.
    apply eqb_of_list in Eq. fold t in Eq.
    exists (take (String.length s - String.length substr) l), [].
    rewrite app_nil_r, <- Eq. now rewrite take_drop. }
  assert (Hpre : take (String.length substr) l <> t).
  { intros E. apply eqb_of_list in E. congruence. }
  assert (Hsuf : drop (String.length s - String.length substr) l <> t).
  { intros E. apply eqb_of_list in E. congruence. }
  assert (Hnz : String.length substr <> 0%nat).
  { intros E. apply Hpre. rewrite E. destruct t; [reflexivity | cbn in Hlt; lia]. }
  rewrite (str_slice_in_range s 1 (String.length s - 1)) in Hhead by lia.
  fold l in Hhead.
  destruct l as [| a l'] eqn:El; [cbn in Hls; lia |].
  destruct (exists_last (l := l')) as (m & z & ->); [intros ->; cbn in Hls; lia |].
  assert (Hm : length m = (String.length s - 1 - 1)%nat).
  { cbn in Hls. rewrite length_app in Hls. cbn in Hls. lia. }
  cbn [drop] in Hhead. rewrite drop_0, <- Hm, take_app_length in Hhead.
  right. exists (string_of_list_ascii m). split; [| split; [exact Hhead |]].
  { rewrite <- length_L, list_ascii_of_string_of_list_ascii. lia. }
  rewrite !occurs_in_L, list_ascii_of_string_of_list_ascii. fold l t. rewrite El. split.
  - intros (pre & post & ->). exists (a :: pre), (post ++ [z])%list.
    cbn [app]. now rewrite <- !app_assoc.
  - intros (pre & post & H).
    destruct pre as [| a' pre'].
    { exfalso. apply Hpre. cbn [app] in H. rewrite H, <- Hlt. apply take_app_length. }
    destruct (exists_last (l := post)) as (post' & z' & ->).
    { intros ->. apply Hsuf. rewrite app_nil_r in H. rewrite H.
      replace (String.length s - String.length substr)%nat with (length (a' :: pre')).
      - apply drop_app_length.
      - apply (f_equal (@length ascii)) in H. rewrite length_app in H. cbn in H, Hls |- *. lia. }
    exists pre', post'. cbn [app] in H. injection H as _ H.
    rewrite !app_assoc in H. apply app_inj_tail in H. destruct H as [H _].
    rewrite H. now rewrite <- app_assoc.
Qed.

(** With fuel for the length of [s], the evaluation ends in a boolean,
    and the boolean says whether [substr] occurs in [s]. *)
Lemma contains_fuel_spec (fuel : nat) :
  forall s substr : string,
    (String.length s <= fuel)%nat ->
    exists b : bool,
      contains_fuel fuel s substr = Done b /\ (b = true <-> occurs_in substr s).
Proof.
  induction fuel as [| n IH]; intros s substr Hfuel;
    destruct (contains_step s substr) as [(b & Hb & Hspec) | (mid & Hlen & Hrec & Hocc)].
  - exists b. split; [apply Hb | exact Hspec].
  - lia.
  - exists b. split; [apply Hb | exact Hspec].
  - destruct (IH mid substr ltac:(lia)) as (b & Hb & Hspec).
    exists b. split; [rewrite Hrec; exact Hb | rewrite Hspec; exact Hocc].
Qed.

Lemma contains_occurs (s substr : string) :
  occurs_in substr s -> contains s substr = Done true.
Proof.
  intros H. destruct (contains_fuel_spec (String.length s) s substr (le_n _))
    as (b & Hb & Hspec).
  unfold contains. rewrite Hb. f_equal. now apply Hspec.
Qed.

Lemma occurs_in_app_l (x a b : string) : occurs_in x a -> occurs_in x (a ++ b)%string.
Proof.
  rewrite !occurs_in_L. intros (pre & post & H). exists pre, (post ++ L b)%list.
  rewrite L_app, H. now rewrite <- !app_assoc.
Qed.

Lemma occurs_in_app_r (x a b : string) : occurs_in x b -> occurs_in x (a ++ b)%string.
Proof.
  rewrite !occurs_in_L. intros (pre & post & H). exists (L a ++ pre)%list, post.
  rewrite L_app, H. now rewrite <- !app_assoc.
Qed.

(** The headings occur in what [FiniteAutomaton_String] returns. *)
Lemma FiniteAutomaton_String_headings (fa : fsm.FiniteAutomaton) :
  Forall (fun h => occurs_in h (fsm.FiniteAutomaton_String fa))
    ["Finite Automaton:"; "States:"; "Alphabet:"; "Initial State:"; "Accepting States:"].
Proof.
  unfold fsm.FiniteAutomaton_String. repeat constructor.
  - apply occurs_in_app_l. exists "", fmt.nl; reflexivity.
  - apply occurs_in_app_r, occurs_in_app_l, occurs_in_app_l.
    exists "  ", " "; reflexivity.
  - do 2 apply occurs_in_app_r. do 2 apply occurs_in_app_l.
    exists "  ", " "; reflexivity.
  - do 3 apply occurs_in_app_r. do 2 apply occurs_in_app_l.
    exists "  ", " "; reflexivity.
  - do 4 apply occurs_in_app_r. apply occurs_in_app_l.
    exists "  ", " "; reflexivity.
Qed.

(** X17. The test helper [contains] never panics in a slice expression
    and does not need more recursion than the length of [s]; it answers
    true exactly when [substr] occurs in [s] as a run of consecutive
    bytes. *)
Theorem contains_decides_occurrence (s substr : string) :
  exists b : bool,
    contains s substr = Done b /\ (b = true <-> occurs_in substr s).
Proof.
  exact (contains_fuel_spec (String.length s) s substr (le_n _)).
Qed.

(** X18. For every automaton, the text of the [String] methods is not
    empty and holds each heading the tests look for: [contains] answers
    true for the five headings of the automaton's text, and for those and
    "ModThree FSM:" on the text of [ModThreeFSM]. *)
Theorem String_headings (m : modthree.ModThreeFSM) :
  Forall (fun h => contains (fsm.FiniteAutomaton_String (modthree.automaton m)) h = Done true)
    ["Finite Automaton:"; "States:"; "Alphabet:"; "Initial State:"; "Accepting States:"] /\
  Forall (fun h => contains (modthree.ModThreeFSM_String m) h = Done true)
    ["ModThree FSM:"; "Finite Automaton:"; "States:"; "Alphabet:"; "Initial State:";
     "Accepting States:"] /\
  fsm.FiniteAutomaton_String (modthree.automaton m) <> "" /\
  modthree.ModThreeFSM_String m <> "".
Proof.
  pose proof (FiniteAutomaton_String_headings (modthree.automaton m)) as H.
  split; [| split; [| split]].
  - eapply Forall_impl; [exact H |]. intros h Hh. exact (contains_occurs _ _ Hh).
  - constructor.
    + apply contains_occurs. unfold modthree.ModThreeFSM_String.
      apply occurs_in_app_l. exists "", fmt.nl; reflexivity.
    + eapply Forall_impl; [exact H |]. intros h Hh. apply contains_occurs.
      unfold modthree.ModThreeFSM_String. apply occurs_in_app_r. exact Hh.
  - discriminate.
  - discriminate.
Qed.

End ContainsFacts.
